(** * clean_appcast.py: removing the releases of one Sparkle channel from an appcast

    A shallow embedding of [.github/scripts/clean_appcast.py] and the
    verification of its specification.

    The script parses an XML file with [xml.etree.ElementTree], walks the
    [channel] elements below the root, removes from each of them the [item]
    children whose first [sparkle:channel] child carries the requested text,
    writes the tree back and prints how many items were removed.

    The embedding has three layers, as the script has:
    - the [Element] objects of ElementTree live in a store and are mutated
      in place ([Element_remove]); the loops of the script are folds over
      lists of references taken with [findall] before the mutation starts;
    - a file holds a document from elsewhere, of which [ET.parse] keeps the
      element tree ([xml]), or what [tree.write] has written for a tree,
      which reads back with its carriage returns as line feeds ([reread]);
    - the process ([clean_appcast], [main]) reads [sys.argv] and the file
      system, prints to the two streams and ends with an exit status; what
      it depends on beyond the script (the recursion limit that the
      serialiser meets, whether the file can be written and the line be
      printed) is a parameter of the world ([runtime]). *)

From Stdlib Require Import String Ascii DecimalString Arith Lia Bool List.
Import ListNotations.
Open Scope string_scope.
Open Scope list_scope.

(* ------------------------------------------------------------------ *)
(** ** Exceptions and the error monad *)

(** The exceptions the script can meet. [FileNotFoundError] and [ParseError]
    have handlers of their own; everything else falls to [except Exception].
    [RecursionError] ends a recursion that runs out of fuel and
    [ReferenceError] the use of a reference to no object, which does not
    occur on a parsed document ([remove_releases_ok]); [OtherError] stands
    for the exceptions of the system (an [OSError], a [UnicodeEncodeError])
    with their message. *)
Inductive exn : Type :=
| FileNotFoundError
| ParseError (msg : string)
| ValueError (msg : string)
| RecursionError
| ReferenceError
| OtherError (msg : string).

Inductive result (A : Type) : Type :=
| Ok (a : A)
| Raise (e : exn).
Arguments Ok {A} a.
Arguments Raise {A} e.

Definition bind {A B : Type} (r : result A) (f : A -> result B) : result B :=
  match r with
  | Ok a => f a
  | Raise e => Raise e
  end.

Notation "x <- c ;; k" := (bind c (fun x => k))
  (at level 61, c at next level, right associativity).

Fixpoint mapM {A B : Type} (f : A -> result B) (l : list A) : result (list B) :=
  match l with
  | [] => Ok []
  | x :: l' => y <- f x ;; ys <- mapM f l' ;; Ok (y :: ys)
  end.

Fixpoint foldM {A S : Type} (f : S -> A -> result S) (l : list A) (s : S)
  : result S :=
  match l with
  | [] => Ok s
  | x :: l' => s' <- f s x ;; foldM f l' s'
  end.

(* ------------------------------------------------------------------ *)
(** ** Documents *)

(** An XML document as ElementTree sees it: every element has a tag (in
    Clark notation, [{uri}local]), attributes, the text before its first
    child, the text after its end tag ([tail]) and its children. *)
Unset Elimination Schemes.
Inductive xml : Type :=
| Node (x_tag : string) (x_attrib : list (string * string))
       (x_text x_tail : option string) (x_kids : list xml).
Set Elimination Schemes.

Definition x_tag (t : xml) : string := let 'Node g _ _ _ _ := t in g.
Definition x_attrib (t : xml) := let 'Node _ a _ _ _ := t in a.
Definition x_text (t : xml) : option string := let 'Node _ _ x _ _ := t in x.
Definition x_tail (t : xml) : option string := let 'Node _ _ _ l _ := t in l.
Definition x_kids (t : xml) : list xml := let 'Node _ _ _ _ k := t in k.

Section xml_induction.
Variable P : xml -> Prop.
Hypothesis P_node : forall g a x l ks, Forall P ks -> P (Node g a x l ks).

Fixpoint xml_ind (t : xml) : P t :=
  match t with
  | Node g a x l ks =>
      P_node g a x l ks
        ((fix all (ks : list xml) : Forall P ks :=
            match ks with
            | [] => Forall_nil P
            | k :: ks' => Forall_cons k (xml_ind k) (all ks')
            end) ks)
  end.

End xml_induction.

Fixpoint height (t : xml) : nat :=
  match t with
  | Node _ _ _ _ ks => S (fold_right (fun k m => Nat.max (height k) m) 0 ks)
  end.

(** The element at a path of child indices, [[]] being the root. *)
Fixpoint subtree (t : xml) (p : list nat) : option xml :=
  match p with
  | [] => Some t
  | i :: p' =>
      match nth_error (x_kids t) i with
      | Some k => subtree k p'
      | None => None
      end
  end.

(* ------------------------------------------------------------------ *)
(** ** The store of Element objects *)

(** [SPARKLE_NS] of the script, and the tag that
    [f'{{{SPARKLE_NS}}}channel'] evaluates to. *)
Definition SPARKLE_NS : string :=
  "http://www.andymatuschak.org/xml-namespaces/sparkle".
Definition sparkle_channel : string :=
  String.append "{" (String.append SPARKLE_NS "}channel").

(** An object is named by the position at which the parser created it. *)
Definition addr : Type := list nat.

Definition addr_eq_dec : forall a b : addr, {a = b} + {a <> b} :=
  list_eq_dec Nat.eq_dec.

Definition addr_eqb (a b : addr) : bool :=
  if addr_eq_dec a b then true else false.

Record Element : Type := mkElement {
  tag : string;
  attrib : list (string * string);
  text : option string;
  tail : option string;
  children : list addr
}.

Definition heap : Type := addr -> option Element.

Definition deref (h : heap) (a : addr) : result Element :=
  match h a with
  | Some e => Ok e
  | None => Raise ReferenceError
  end.

Definition upd (h : heap) (a : addr) (e : Element) : heap :=
  fun b => if addr_eqb b a then Some e else h b.

(** [ET.parse]: one object per element of the document; the children of the
    object made at position [p] are the objects made at [p ++ [0]],
    [p ++ [1]], ... *)
Definition child_addrs (p : addr) (n : nat) : list addr :=
  map (fun i => p ++ [i]) (seq 0 n).

Definition load (t : xml) : heap :=
  fun p =>
    match subtree t p with
    | Some (Node g a x l ks) =>
        Some (mkElement g a x l (child_addrs p (List.length ks)))
    | None => None
    end.

(** [Element.iter(tag)]: the element itself when its tag is [g], then the
    elements of its children, in document order. The library walks the tree
    in a loop; here the walk is a recursion on [fuel], which the height of
    the tree suffices for ([iter_load]). *)
Fixpoint iter (fuel : nat) (h : heap) (a : addr) (g : string)
  : result (list addr) :=
  match fuel with
  | 0 => Raise RecursionError
  | S fuel' =>
      e <- deref h a ;;
      below <- mapM (fun c => iter fuel' h c g) (children e) ;;
      Ok ((if String.eqb (tag e) g then [a] else []) ++ concat below)
  end.

(** [elem.findall('.//' + g)]: the elements of [elem.iter(g)] that are not
    [elem] itself, as a list. *)
Definition findall_descendants (fuel : nat) (h : heap) (a : addr) (g : string)
  : result (list addr) :=
  l <- iter fuel h a g ;;
  Ok (filter (fun e => negb (addr_eqb e a)) l).

(** [elem.findall(g)] for a plain tag: the direct children tagged [g]. *)
Fixpoint select_tag (h : heap) (g : string) (l : list addr)
  : result (list addr) :=
  match l with
  | [] => Ok []
  | c :: l' =>
      e <- deref h c ;;
      rest <- select_tag h g l' ;;
      Ok (if String.eqb (tag e) g then c :: rest else rest)
  end.

Definition findall (h : heap) (a : addr) (g : string) : result (list addr) :=
  e <- deref h a ;;
  select_tag h g (children e).

(** [elem.find(g)]: the first direct child tagged [g], or [None]. *)
Fixpoint first_tag (h : heap) (g : string) (l : list addr)
  : result (option addr) :=
  match l with
  | [] => Ok None
  | c :: l' =>
      e <- deref h c ;;
      if String.eqb (tag e) g then Ok (Some c) else first_tag h g l'
  end.

Definition find (h : heap) (a : addr) (g : string) : result (option addr) :=
  e <- deref h a ;;
  first_tag h g (children e).

(** [list.remove]: drop the first occurrence. *)
Fixpoint remove_first (x : addr) (l : list addr) : list addr :=
  match l with
  | [] => []
  | y :: l' => if addr_eqb y x then l' else y :: remove_first x l'
  end.

Definition inb (x : addr) (l : list addr) : bool := existsb (addr_eqb x) l.

(** [elem.remove(sub)]: identity comparison; [ValueError] when [sub] is not
    a child. *)
Definition Element_remove (h : heap) (a sub : addr) : result heap :=
  e <- deref h a ;;
  if inb sub (children e)
  then Ok (upd h a (mkElement (tag e) (attrib e) (text e) (tail e)
                              (remove_first sub (children e))))
  else Raise (ValueError "list.remove(x): x not in list").

(** The serialiser of [tree.write]: the document below an object. It calls
    itself for every child, one Python frame for each level of the tree:
    [fuel] is the number of levels that the recursion limit leaves it. *)
Fixpoint dump (fuel : nat) (h : heap) (a : addr) : result xml :=
  match fuel with
  | 0 => Raise RecursionError
  | S fuel' =>
      e <- deref h a ;;
      ks <- mapM (dump fuel' h) (children e) ;;
      Ok (Node (tag e) (attrib e) (text e) (tail e) ks)
  end.

(* ------------------------------------------------------------------ *)
(** ** The script *)

Definition text_is (x : option string) (c : string) : bool :=
  match x with
  | Some s => String.eqb s c
  | None => false
  end.

(** The test of line 41:
    [channel_elem is not None and channel_elem.text == channel_to_remove]
    after [channel_elem = item.find(sparkle_channel)]. *)
Definition on_channel (h : heap) (item : addr) (channel_to_remove : string)
  : result bool :=
  channel_elem <- find h item sparkle_channel ;;
  match channel_elem with
  | Some ce => e <- deref h ce ;; Ok (text_is (text e) channel_to_remove)
  | None => Ok false
  end.

(** The body of the inner loop (lines 39 to 43). *)
Definition visit_item (channel : addr) (channel_to_remove : string)
  (s : heap * nat) (item : addr) : result (heap * nat) :=
  let '(h, removed_count) := s in
  hit <- on_channel h item channel_to_remove ;;
  if hit
  then h' <- Element_remove h channel item ;; Ok (h', removed_count + 1)
  else Ok (h, removed_count).

(** The body of the outer loop (lines 37 to 43). *)
Definition visit_channel (channel_to_remove : string)
  (s : heap * nat) (channel : addr) : result (heap * nat) :=
  items <- findall (fst s) channel "item" ;;
  foldM (visit_item channel channel_to_remove) items s.

(** Lines 33 to 43. *)
Definition remove_releases (fuel : nat) (h : heap) (root : addr)
  (channel_to_remove : string) : result (heap * nat) :=
  channels <- findall_descendants fuel h root "channel" ;;
  foldM (visit_channel channel_to_remove) channels (h, 0).

(* ------------------------------------------------------------------ *)
(** ** Files as the parser and the serialiser see them *)

Definition CR : ascii := ascii_of_nat 13.
Definition LF : ascii := ascii_of_nat 10.

(** How a text reads back once [tree.write] has written it: the serialiser
    writes a carriage return as it is, and the parser reads a carriage
    return, alone or before a line feed, as one line feed. *)
Fixpoint crlf (s : string) : string :=
  match s with
  | EmptyString => EmptyString
  | String a s' =>
      if Ascii.eqb a CR
      then match s' with
           | String b _ =>
               if Ascii.eqb b LF then crlf s' else String LF (crlf s')
           | EmptyString => String LF EmptyString
           end
      else String a (crlf s')
  end.

(** An empty text is written as no text at all. *)
Definition reread_text (x : option string) : option string :=
  match x with
  | Some EmptyString => None
  | Some s => Some (crlf s)
  | None => None
  end.

(** The tree that [ET.parse] reads from the file that [tree.write] has
    written for the tree [t]. Tags and attributes come back as they were
    (the serialiser writes the carriage returns, line feeds and tabs of an
    attribute as character references). *)
Fixpoint reread (t : xml) : xml :=
  match t with
  | Node g a x l ks => Node g a (reread_text x) (reread_text l) (map reread ks)
  end.

Fixpoint has_char (a : ascii) (s : string) : bool :=
  match s with
  | EmptyString => false
  | String b s' => Ascii.eqb b a || has_char a s'
  end.

(** The channel name holds no line feed. *)
Definition lf_free (c : string) : bool := negb (has_char LF c).

Definition plain_text (x : option string) : bool :=
  match x with
  | Some EmptyString => false
  | Some s => negb (has_char CR s)
  | None => true
  end.

(** No text and no tail of the document holds a carriage return (or is
    empty): the document reads back as it is written ([reread_plain]). *)
Fixpoint plain (t : xml) : bool :=
  match t with
  | Node _ _ x l ks => plain_text x && plain_text l && forallb plain ks
  end.

(** What a path holds:
    - a well-formed document from elsewhere, recorded as the element tree
      that the parser makes of it and, [beside], the markup that the parser
      does not keep: comments, processing instructions, the document type
      declaration, namespace declarations that no element uses;
    - the file that [tree.write] has written for a tree;
    - something that the parser rejects with a message;
    - something on which [ET.parse] raises another exception (a directory,
      a file that may not be read, an encoding that the parser lacks). *)
Inductive content : Type :=
| Document (t : xml) (beside : list string)
| Written (d : xml)
| Malformed (err : string)
| Unreadable (msg : string).

(** The element tree that a parser reads from a file, and the markup beside
    it. *)
Definition document_of (f : content) : option xml :=
  match f with
  | Document t _ => Some t
  | Written d => Some (reread d)
  | Malformed _ => None
  | Unreadable _ => None
  end.


Definition filesystem : Type := string -> option content.

Definition write_file (fs : filesystem) (path : string) (c : content)
  : filesystem :=
  fun q => if String.eqb q path then Some c else fs q.

(** Opening and parsing the file of [ET.parse(appcast_path)]. *)
Definition read_xml (fs : filesystem) (path : string) : result xml :=
  match fs path with
  | None => Raise FileNotFoundError
  | Some (Document t _) => Ok t
  | Some (Written d) => Ok (reread d)
  | Some (Malformed err) => Raise (ParseError err)
  | Some (Unreadable msg) => Raise (OtherError msg)
  end.

(* ------------------------------------------------------------------ *)
(** ** The process: arguments, files, streams, exit status *)

(** What the script cannot see of the interpreter and the system it runs on:
    - [recursion_limit]: the height of the tallest tree that the recursive
      serialiser of [tree.write] can follow under Python's recursion limit;
    - [write_error]: the exception that opening a path for writing raises,
      if it does;
    - [stdout_error]: the message of the exception that printing line 48 for
      a channel name and a path raises, if the encoding of standard output
      lacks one of its characters (the usage lines are plain ASCII, and the
      error stream replaces what its encoding lacks);
    - [torn]: what the parser says of a file that a failed write has cut
      short. *)
Record runtime : Type := mkRuntime {
  recursion_limit : nat;
  write_error : string -> option exn;
  stdout_error : string -> string -> option string;
  torn : string
}.

Record world : Type := mkWorld {
  files : filesystem;
  stdout : list string;
  stderr : list string;
  python : runtime
}.

Definition print_out (w : world) (line : string) : world :=
  mkWorld (files w) (stdout w ++ [line]) (stderr w) (python w).

Definition print_err (w : world) (line : string) : world :=
  mkWorld (files w) (stdout w) (stderr w ++ [line]) (python w).

Definition str (n : nat) : string := NilEmpty.string_of_uint (Nat.to_uint n).

(** [str(e)] for the exceptions that reach [except Exception]. *)
Definition exn_message (e : exn) : string :=
  match e with
  | FileNotFoundError => "No such file or directory"
  | ParseError msg => msg
  | ValueError msg => msg
  | RecursionError =>
      "maximum recursion depth exceeded while calling a Python object"
  | ReferenceError => "weakly-referenced object no longer exists"
  | OtherError msg => msg
  end.

Definition removed_message (removed_count : nat)
  (channel_to_remove appcast_path : string) : string :=
  ("✓ Removed " ++ str removed_count ++ " '" ++ channel_to_remove
   ++ "' channel release(s) from " ++ appcast_path)%string.

Definition not_found_message (appcast_path : string) : string :=
  ("✗ File not found: " ++ appcast_path)%string.

Definition parse_failed_message (msg : string) : string :=
  ("✗ Failed to parse XML: " ++ msg)%string.

Definition unexpected_message (e : exn) : string :=
  ("✗ Unexpected error: " ++ exn_message e)%string.

(** [tree.write(appcast_path, ...)] of line 46: the file is opened for
    writing, which empties it, and the serialiser walks the tree below the
    root. When the walk ends in an exception, what has been written so far
    stays in the file. *)
Definition tree_write (py : runtime) (fs : filesystem) (path : string)
  (h : heap) (root : addr) : filesystem * option exn :=
  match write_error py path with
  | Some e => (fs, Some e)
  | None =>
      match dump (recursion_limit py) h root with
      | Ok d => (write_file fs path (Written d), None)
      | Raise e => (write_file fs path (Malformed (torn py)), Some e)
      end
  end.

(** The [try] block of [clean_appcast] (lines 30 to 48): the world it
    leaves, and the exception that ends it, if any. The traversals of the
    loops are iterative in the library and end on every tree: the height of
    the document is fuel enough for them ([remove_releases_ok]). *)
Definition clean_appcast_body (appcast_path channel_to_remove : string)
  (w : world) : world * option exn :=
  match read_xml (files w) appcast_path with
  | Raise e => (w, Some e)
  | Ok t =>
      let root : addr := [] in
      match remove_releases (height t) (load t) root channel_to_remove with
      | Raise e => (w, Some e)
      | Ok (h, removed_count) =>
          match tree_write (python w) (files w) appcast_path h root with
          | (fs, Some e) =>
              (mkWorld fs (stdout w) (stderr w) (python w), Some e)
          | (fs, None) =>
              let w' := mkWorld fs (stdout w) (stderr w) (python w) in
              match stdout_error (python w) channel_to_remove appcast_path
              with
              | Some msg => (w', Some (OtherError msg))
              | None =>
                  (print_out w' (removed_message removed_count
                                   channel_to_remove appcast_path), None)
              end
          end
      end
  end.

(** [clean_appcast]: the world it leaves, and [Some status] when it ends the
    process with [sys.exit(status)], [None] when it returns. *)
Definition clean_appcast (appcast_path channel_to_remove : string)
  (w : world) : world * option nat :=
  match clean_appcast_body appcast_path channel_to_remove w with
  | (w', None) => (w', None)
  | (w', Some FileNotFoundError) =>
      (print_err w' (not_found_message appcast_path), Some 1)
  | (w', Some (ParseError msg)) =>
      (print_err w' (parse_failed_message msg), Some 1)
  | (w', Some e) =>
      (print_err w' (unexpected_message e), Some 1)
  end.

Definition usage : list string :=
  ["Usage: python clean_appcast.py <appcast_file> <channel_name>";
   "Example: python clean_appcast.py appcast.xml edge"].

(** [main], with [sys.argv] as [argv]; the result is the world it leaves and
    the exit status of the process. *)
Definition main (argv : list string) (w : world) : world * nat :=
  if negb (Nat.eqb (length argv) 3)
  then (mkWorld (files w) (stdout w ++ usage) (stderr w) (python w), 1)
  else
    let appcast_path := nth 1 argv EmptyString in
    let channel_name := nth 2 argv EmptyString in
    match clean_appcast appcast_path channel_name w with
    | (w', Some status) => (w', status)
    | (w', None) => (w', 0)
    end.

(** The document that a parser reads at a path. *)
Definition reads (w : world) (path : string) : option xml :=
  match files w path with
  | Some f => document_of f
  | None => None
  end.

(* ------------------------------------------------------------------ *)
(** ** What the script computes, on documents *)

(** The first child tagged [g]. *)
Fixpoint first_kid (g : string) (ks : list xml) : option xml :=
  match ks with
  | [] => None
  | k :: ks' => if String.eqb (x_tag k) g then Some k else first_kid g ks'
  end.

(** The release [item] is on channel [c]: its first [sparkle:channel] child
    has exactly the text [c]. *)
Definition releases_on (c : string) (item : xml) : bool :=
  match first_kid sparkle_channel (x_kids item) with
  | Some s => text_is (x_text s) c
  | None => false
  end.

(** The children that the inner loop removes from a [channel] element. *)
Definition doomed (c : string) (k : xml) : bool :=
  String.eqb (x_tag k) "item" && releases_on c k.

(** An element below the root after the run: every [channel] element has
    lost its doomed children, everything else is as it was. *)
Fixpoint prune (c : string) (t : xml) : xml :=
  match t with
  | Node g a x l ks =>
      Node g a x l
        (flat_map (fun k => if String.eqb g "channel" && doomed c k
                            then [] else [prune c k]) ks)
  end.

(** The root element is not among its own descendants: its child list is
    left alone. *)
Definition prune_root (c : string) (t : xml) : xml :=
  match t with
  | Node g a x l ks => Node g a x l (map (prune c) ks)
  end.

(** The number of doomed children of the [channel] elements of a subtree. *)
Fixpoint tally (c : string) (t : xml) : nat :=
  match t with
  | Node g _ _ _ ks =>
      (if String.eqb g "channel" then length (filter (doomed c) ks) else 0)
      + list_sum (map (tally c) ks)
  end.

Definition tally_root (c : string) (t : xml) : nat :=
  list_sum (map (tally c) (x_kids t)).

(** The positions of the elements tagged [g], in document order, relative to
    the element where the search starts. *)
Fixpoint paths (g : string) (t : xml) : list addr :=
  match t with
  | Node tg _ _ _ ks =>
      (if String.eqb tg g then [[]] else []) ++
      (fix go (i : nat) (ks : list xml) : list addr :=
         match ks with
         | [] => []
         | k :: ks' => map (cons i) (paths g k) ++ go (S i) ks'
         end) 0 ks
  end.

Fixpoint kid_paths (g : string) (i : nat) (ks : list xml) : list addr :=
  match ks with
  | [] => []
  | k :: ks' => map (cons i) (paths g k) ++ kid_paths g (S i) ks'
  end.

(** A list with the positions of its members. *)
Definition indexed {A : Type} (s : nat) (l : list A) : list (nat * A) :=
  combine (seq s (length l)) l.

(** The doomed children of the element at a position, when it exists. *)
Definition load_of (c : string) (t : xml) (q : addr) : nat :=
  match subtree t q with
  | Some e => length (filter (doomed c) (x_kids e))
  | None => 0
  end.

(** Is the element at a position doomed? *)
Definition doomed_at (c : string) (t : xml) (q : addr) : bool :=
  match subtree t q with
  | Some k => doomed c k
  | None => false
  end.

(** An object whose doomed children have been removed. *)
Definition shrink (c : string) (t : xml) (e : Element) : Element :=
  mkElement (tag e) (attrib e) (text e) (tail e)
            (filter (fun q => negb (doomed_at c t q)) (children e)).

(** The store of the parsed document [t] once the loop has visited the
    objects in [done]. *)
Definition visited (c : string) (t : xml) (done : addr -> bool) (h : heap)
  : Prop :=
  forall a,
    h a = match load t a with
          | Some e => Some (if done a then shrink c t e else e)
          | None => None
          end.

(** [h] has an object with the tag and text of every object of [h0]. *)
Definition same_label (h h0 : heap) : Prop :=
  forall b e0, h0 b = Some e0 ->
               exists e, h b = Some e /\ tag e = tag e0 /\ text e = text e0.

(** The object at [a] stands for the element [k]. *)
Definition labelled (h : heap) (a : addr) (k : xml) : Prop :=
  exists e, h a = Some e /\ tag e = x_tag k /\ text e = x_text k.

(** Is the element at a position an [item]; is it a release on [c]? *)
Definition item_at (t : xml) (q : addr) : bool :=
  match subtree t q with
  | Some k => String.eqb (x_tag k) "item"
  | None => false
  end.

Definition release_at (c : string) (t : xml) (q : addr) : bool :=
  match subtree t q with
  | Some k => releases_on c k
  | None => false
  end.

(** The positions that the outer loop visits: the [channel] elements other
    than the root. *)
Definition channel_below (t : xml) (b : addr) : bool :=
  match b with
  | [] => false
  | _ :: _ =>
      match subtree t b with
      | Some e => String.eqb (x_tag e) "channel"
      | None => false
      end
  end.

(** The store that the loops of lines 33 to 43 leave for a document. *)
Definition store_after (t : xml) (channel_to_remove : string) : result heap :=
  s <- remove_releases (height t) (load t) [] channel_to_remove ;;
  Ok (fst s).

(* ------------------------------------------------------------------ *)
(** ** Readings of the specification used in the counterexamples *)

(** No [item] under any [channel] element of [d] has a [sparkle:channel]
    child with the text [c]. *)
Definition no_release_left (c : string) (d : xml) : Prop :=
  forall p ch it s,
    subtree d p = Some ch -> x_tag ch = "channel" ->
    In it (x_kids ch) -> x_tag it = "item" ->
    In s (x_kids it) -> x_tag s = sparkle_channel ->
    x_text s <> Some c.





(** No [item] child of a [channel] element below the root of [d] has [c] as
    the text of its first [sparkle:channel] child. *)
Definition no_first_release (c : string) (d : xml) : Prop :=
  forall p ch it s,
    p <> [] -> subtree d p = Some ch -> x_tag ch = "channel" ->
    In it (x_kids ch) -> x_tag it = "item" ->
    first_kid sparkle_channel (x_kids it) = Some s ->
    x_text s <> Some c.

(** Some [item] of the document is a release on [c]. *)
Fixpoint any_release (c : string) (t : xml) : bool :=
  match t with
  | Node g _ _ _ ks =>
      (String.eqb g "item" && releases_on c t) || existsb (any_release c) ks
  end.

(** Some [item] of the document has no [sparkle:channel] child. *)
Fixpoint any_untagged (t : xml) : bool :=
  match t with
  | Node g _ _ _ ks =>
      (String.eqb g "item" &&
       match first_kid sparkle_channel ks with
       | Some _ => false
       | None => true
       end)
      || existsb any_untagged ks
  end.

(** The element at the position [q] of [t] is neither removed by the run
    for [c] nor inside an element that is: no step of [q] leads from a
    [channel] element other than the root ([top] tells whether [t] is the
    root) to one of its doomed children. *)
Fixpoint outlives (c : string) (top : bool) (t : xml) (q : addr) : bool :=
  match q with
  | [] => true
  | i :: q' =>
      match nth_error (x_kids t) i with
      | Some k =>
          negb (negb top && String.eqb (x_tag t) "channel" && doomed c k)
          && outlives c false k q'
      | None => false
      end
  end.

(** The number of elements tagged [item] in a document. *)
Fixpoint items_in (t : xml) : nat :=
  match t with
  | Node g _ _ _ ks =>
      (if String.eqb g "item" then 1 else 0) + list_sum (map items_in ks)
  end.

(** No [item] element of the document has an [item] element inside. *)
Fixpoint flat_items (t : xml) : bool :=
  match t with
  | Node g _ _ _ ks =>
      (if String.eqb g "item" then Nat.eqb (list_sum (map items_in ks)) 0
       else true)
      && forallb flat_items ks
  end.

(* ------------------------------------------------------------------ *)
(** ** Example documents and worlds *)

Definition element (g : string) (ks : list xml) : xml :=
  Node g [] None None ks.

Definition sparkle (c : string) : xml :=
  Node sparkle_channel [] (Some c) None [].

Definition release (ks : list xml) : xml := element "item" ks.

Definition title : xml := Node "title" [] (Some "Releases") None [].

Definition appcast (items : list xml) : xml :=
  element "rss" [element "channel" (title :: items)].

(** The example of the specification. *)
Definition appcast_mixed : xml :=
  appcast [release [sparkle "stable"]; release [sparkle "edge"];
           release [sparkle "edge"]; release [title]].

(** A release with two [sparkle:channel] children. *)
Definition appcast_second : xml :=
  appcast [release [sparkle "stable"; sparkle "edge"]].

(** A document whose root is the [channel] element. *)
Definition feed_at_root : xml :=
  element "channel" [title; release [sparkle "edge"]].



(** A release whose channel differs from [edge] in letter case only. *)
Definition appcast_case : xml := appcast [release [sparkle "Edge"]].

(** A release without a [sparkle:channel] child. *)
Definition appcast_untagged : xml := appcast [release [title]].

(** A release whose first [sparkle:channel] child is empty. *)
Definition appcast_empty_first : xml :=
  appcast [release [title; Node sparkle_channel [] None None [];
                    sparkle "edge"]].


(** A release on [edge] that holds a feed of its own. *)
Definition appcast_nested : xml :=
  appcast [Node "item" [] None None
             [sparkle "edge";
              element "channel" [release [sparkle "edge"];
                                 release [sparkle "stable"]]];
           release [sparkle "beta"]].

(** A release on [edge] that holds a release without channel. *)
Definition appcast_nested_untagged : xml :=
  appcast [Node "item" [] None None
             [sparkle "edge"; element "channel" [release [title]]]].

(** A release on [stable] that holds a feed with a release on [edge]. *)
Definition appcast_holding : xml :=
  appcast [Node "item" [] None None
             [sparkle "stable"; element "channel" [release [sparkle "edge"]]]].

Definition appcast_holding_cleaned : xml :=
  appcast [Node "item" [] None None [sparkle "stable"; element "channel" []]].

(** The two channel names [ed<CR>ge] and [ed<LF>ge], and a release on the
    first: a file holds it as [ed&#13;ge]. *)
Definition edge_cr : string := String "e" (String "d" (String CR "ge")).
Definition edge_lf : string := String "e" (String "d" (String LF "ge")).
Definition appcast_cr : xml := appcast [release [sparkle edge_cr]].
Definition appcast_lf : xml := appcast [release [sparkle edge_lf]].

(** A nest of [n + 1] elements. *)
Fixpoint chain (n : nat) : xml :=
  match n with
  | 0 => element "a" []
  | S n' => element "a" [chain n']
  end.

(** A feed with one release on [edge] next to a nest of 1001 elements. *)
Definition appcast_deep : xml := appcast [release [sparkle "edge"]; chain 1000].

(** An interpreter with Python's usual limits, on a system that lets every
    file be written and every line be printed. *)
Definition cpython : runtime :=
  mkRuntime 990 (fun _ => None) (fun _ _ => None)
            "no element found: line 2, column 2991".

(** The same with a standard output in ASCII, which lacks the check mark of
    line 48. *)
Definition cpython_ascii : runtime :=
  mkRuntime 990 (fun _ => None)
            (fun _ _ => Some "'ascii' codec can't encode character '\u2713' in position 0: ordinal not in range(128)")
            "no element found: line 2, column 2991".

Definition one_file (f : content) : filesystem :=
  fun p => if String.eqb p "appcast.xml" then Some f else None.

(** A world with one file, [appcast.xml], holding the document [t] and
    nothing beside it. *)
Definition world_of (t : xml) : world :=
  mkWorld (one_file (Document t [])) [] [] cpython.


Definition ascii_world (t : xml) : world :=
  mkWorld (one_file (Document t [])) [] [] cpython_ascii.

Definition empty_world : world := mkWorld (fun _ => None) [] [] cpython.

(** A world whose [appcast.xml] is not well-formed. *)
Definition broken_world : world :=
  mkWorld (one_file (Malformed "no element found: line 1, column 0"))
          [] [] cpython.

(** The world after [clean_appcast.py appcast.xml edge] on the example of
    the specification. *)
Definition mixed_after : world :=
  fst (clean_appcast "appcast.xml" "edge" (world_of appcast_mixed)).

(* ------------------------------------------------------------------ *)
(** * Verification *)

(** ** The error monad *)

Lemma mapM_map_in {A B C : Type} (f : B -> result C) (g : A -> B)
  (F : A -> C) (l : list A) :
  (forall x, In x l -> f (g x) = Ok (F x)) ->
  mapM f (map g l) = Ok (map F l).
Proof.
  induction l as [|x l IH]; intros H; simpl; [reflexivity|].
  rewrite (H x) by (left; reflexivity). simpl.
  rewrite IH by (intros y Hy; apply H; right; exact Hy).
  reflexivity.
Qed.

Lemma foldM_cons {A S : Type} (f : S -> A -> result S) (x : A) (l : list A)
  (s : S) :
  foldM f (x :: l) s = bind (f s x) (fun s' => foldM f l s').
Proof. reflexivity. Qed.

(** ** Lists with positions *)

Lemma indexed_cons {A : Type} (s : nat) (x : A) (l : list A) :
  indexed s (x :: l) = (s, x) :: indexed (S s) l.
Proof. reflexivity. Qed.

Lemma map_snd_indexed {A : Type} (l : list A) (s : nat) :
  map snd (indexed s l) = l.
Proof.
  revert s; induction l as [|x l IH]; intros s; [reflexivity|].
  rewrite indexed_cons; simpl; now rewrite IH.
Qed.

Lemma map_fst_indexed {A : Type} (l : list A) (s : nat) :
  map fst (indexed s l) = seq s (length l).
Proof.
  revert s; induction l as [|x l IH]; intros s; [reflexivity|].
  rewrite indexed_cons; simpl; now rewrite IH.
Qed.

Lemma In_indexed {A : Type} (l : list A) (s i : nat) (x : A) :
  In (i, x) (indexed s l) <-> s <= i /\ nth_error l (i - s) = Some x.
Proof.
  revert s; induction l as [|y l IH]; intros s.
  - simpl. split; [tauto|]. intros [_ H]. destruct (i - s); discriminate.
  - rewrite indexed_cons. simpl. rewrite IH. split.
    + intros [E | [Hle Hn]].
      * inversion E; subst. split; [lia|]. now rewrite Nat.sub_diag.
      * split; [lia|]. replace (i - s) with (S (i - S s)) by lia. exact Hn.
    + intros [Hle Hn]. destruct (Nat.eq_dec s i) as [->|Hne].
      * rewrite Nat.sub_diag in Hn. simpl in Hn. left. congruence.
      * right. split; [lia|].
        replace (i - s) with (S (i - S s)) in Hn by lia. exact Hn.
Qed.

Lemma In_indexed0 {A : Type} (l : list A) (i : nat) (x : A) :
  In (i, x) (indexed 0 l) <-> nth_error l i = Some x.
Proof.
  rewrite In_indexed, Nat.sub_0_r. split; [tauto|]. intros H; split; [lia|auto].
Qed.

Lemma child_addrs_indexed (p : addr) (ks : list xml) :
  child_addrs p (length ks) = map (fun x => p ++ [fst x]) (indexed 0 ks).
Proof.
  unfold child_addrs. rewrite <- (map_fst_indexed ks 0), map_map. reflexivity.
Qed.

Lemma kid_paths_indexed (g : string) (ks : list xml) (s : nat) :
  kid_paths g s ks =
  flat_map (fun x => map (cons (fst x)) (paths g (snd x))) (indexed s ks).
Proof.
  revert s; induction ks as [|k ks IH]; intros s; [reflexivity|].
  rewrite indexed_cons. simpl. now rewrite IH.
Qed.

Lemma paths_eq (g tg : string) a x l (ks : list xml) :
  paths g (Node tg a x l ks) =
  (if String.eqb tg g then [[]] else []) ++ kid_paths g 0 ks.
Proof.
  simpl. f_equal. generalize 0.
  induction ks as [|k ks IH]; intros s; simpl; [reflexivity|].
  now rewrite IH.
Qed.

(** ** Positions in a document *)

Lemma subtree_app (t : xml) (p q : addr) :
  subtree t (p ++ q) =
  match subtree t p with
  | Some e => subtree e q
  | None => None
  end.
Proof.
  revert t; induction p as [|i p IH]; intros t; simpl; [reflexivity|].
  destruct (nth_error (x_kids t) i); [apply IH | reflexivity].
Qed.

Lemma subtree_kid (t e k : xml) (p : addr) (i : nat) :
  subtree t p = Some e -> nth_error (x_kids e) i = Some k ->
  subtree t (p ++ [i]) = Some k.
Proof.
  intros Hp Hi. rewrite subtree_app, Hp. simpl. now rewrite Hi.
Qed.

Lemma height_kid (k : xml) (ks : list xml) g a x l :
  In k ks -> height k < height (Node g a x l ks).
Proof.
  simpl. induction ks as [|k' ks IH]; intros H; [destruct H|].
  simpl. destruct H as [->|H]; [lia|]. specialize (IH H). lia.
Qed.

Lemma load_at (t : xml) (p : addr) g a x l ks :
  subtree t p = Some (Node g a x l ks) ->
  load t p = Some (mkElement g a x l (child_addrs p (length ks))).
Proof. unfold load. now intros ->. Qed.

Lemma addr_eqb_eq (a b : addr) : addr_eqb a b = true <-> a = b.
Proof. unfold addr_eqb. destruct (addr_eq_dec a b); split; congruence. Qed.

Lemma addr_eqb_refl (a : addr) : addr_eqb a a = true.
Proof. now apply addr_eqb_eq. Qed.

Lemma addr_eqb_neq (a b : addr) : addr_eqb a b = false <-> a <> b.
Proof. unfold addr_eqb. destruct (addr_eq_dec a b); split; congruence. Qed.

Lemma inb_In (x : addr) (l : list addr) : inb x l = true <-> In x l.
Proof.
  unfold inb. rewrite existsb_exists. split.
  - intros [y [Hy E]]. apply addr_eqb_eq in E. now subst.
  - intros H. exists x. split; [exact H | apply addr_eqb_refl].
Qed.

(** ** [iter] on a freshly parsed document *)

Lemma iter_load (t0 : xml) (g : string) (t : xml) :
  forall (p : addr) (fuel : nat),
    subtree t0 p = Some t -> height t <= fuel ->
    iter fuel (load t0) p g = Ok (map (app p) (paths g t)).
Proof.
  induction t as [tg a x l ks IH] using xml_ind. intros p fuel Hp Hf.
  destruct fuel as [|fuel]; [simpl in Hf; lia|].
  rewrite Forall_forall in IH.
  simpl iter. unfold deref. rewrite (load_at _ _ _ _ _ _ _ Hp). simpl bind.
  rewrite child_addrs_indexed.
  rewrite (mapM_map_in _ _
             (fun y => map (app (p ++ [fst y])) (paths g (snd y)))).
  - simpl bind. rewrite paths_eq, map_app. f_equal. f_equal.
    + destruct (String.eqb tg g); simpl; [now rewrite app_nil_r | reflexivity].
    + rewrite kid_paths_indexed, flat_map_concat_map, concat_map, map_map.
      f_equal. apply map_ext. intros [i k]. simpl. rewrite map_map.
      apply map_ext. intros q. now rewrite <- app_assoc.
  - intros [i k] Hik. simpl. apply In_indexed0 in Hik.
    assert (Hk : In k ks) by (eapply nth_error_In; eauto).
    apply IH; [exact Hk | |].
    + eapply subtree_kid; eauto.
    + pose proof (height_kid k ks tg a x l Hk). lia.
Qed.

(** ** The positions listed by [paths] *)

Lemma In_kid_paths (g : string) (ks : list xml) (q : addr) :
  In q (kid_paths g 0 ks) <->
  exists i k q', q = i :: q' /\ nth_error ks i = Some k /\ In q' (paths g k).
Proof.
  rewrite kid_paths_indexed, in_flat_map. split.
  - intros [[i k] [Hik Hq]]. simpl in Hq. apply in_map_iff in Hq.
    destruct Hq as [q' [<- Hq']]. apply In_indexed0 in Hik.
    exists i, k, q'. auto.
  - intros [i [k [q' [-> [Hik Hq']]]]]. exists (i, k). split.
    + now apply In_indexed0.
    + simpl. now apply in_map.
Qed.

Lemma In_paths (g : string) (t : xml) :
  forall q, In q (paths g t) <->
            exists e, subtree t q = Some e /\ x_tag e = g.
Proof.
  induction t as [tg a x l ks IH] using xml_ind. intros q.
  rewrite Forall_forall in IH.
  rewrite paths_eq, in_app_iff, In_kid_paths. split.
  - intros [H | [i [k [q' [-> [Hik Hq']]]]]].
    + destruct (String.eqb_spec tg g) as [->|]; [|destruct H].
      destruct H as [<-|[]]. eexists. split; reflexivity.
    + simpl. rewrite Hik. apply IH; [|exact Hq'].
      eapply nth_error_In; eauto.
  - intros [e [He Hg]]. destruct q as [|i q'].
    + left. simpl in He. inversion He; subst e. simpl in Hg. subst g.
      rewrite String.eqb_refl. now left.
    + right. simpl in He. destruct (nth_error ks i) as [k|] eqn:Hik;
        [|discriminate].
      exists i, k, q'. repeat split; auto.
      apply IH; [eapply nth_error_In; eauto|]. eauto.
Qed.

Lemma kid_paths_head (g : string) (ks : list xml) (s : nat) (q : addr) :
  In q (kid_paths g s ks) -> exists j q', q = j :: q' /\ s <= j.
Proof.
  revert s; induction ks as [|k ks IH]; intros s; simpl; [tauto|].
  rewrite in_app_iff, in_map_iff. intros [[q' [<- _]] | H].
  - exists s, q'. split; [reflexivity | lia].
  - destruct (IH _ H) as [j [q' [-> Hj]]]. exists j, q'. split; [auto | lia].
Qed.

Lemma NoDup_map_cons (i : nat) (l : list addr) :
  NoDup l -> NoDup (map (cons i) l).
Proof.
  intros H. apply NoDup_map_NoDup_ForallPairs; [|exact H].
  intros u v _ _ E. congruence.
Qed.

Lemma NoDup_paths (g : string) (t : xml) : NoDup (paths g t).
Proof.
  induction t as [tg a x l ks IH] using xml_ind.
  assert (K : forall s, NoDup (kid_paths g s ks)).
  { induction ks as [|k ks IHks]; intros s; simpl; [constructor|].
    inversion IH; subst. apply NoDup_app.
    - now apply NoDup_map_cons.
    - now apply IHks.
    - intros q Hq Hq'. apply in_map_iff in Hq. destruct Hq as [q' [<- _]].
      apply kid_paths_head in Hq'. destruct Hq' as [j [q'' [E Hj]]].
      inversion E; lia. }
  rewrite paths_eq. apply NoDup_app; [| apply K |].
  - destruct (String.eqb tg g); repeat constructor. intros [].
  - intros q Hq Hq'. apply kid_paths_head in Hq'.
    destruct Hq' as [j [q' [-> _]]].
    destruct (String.eqb tg g); simpl in Hq; [|tauto].
    destruct Hq as [E|[]]; discriminate.
Qed.

Lemma list_sum_flat_map {A : Type} (W : addr -> nat) (G : A -> list addr)
  (l : list A) :
  list_sum (map W (flat_map G l)) =
  list_sum (map (fun y => list_sum (map W (G y))) l).
Proof.
  induction l as [|y l IH]; simpl; [reflexivity|].
  now rewrite map_app, list_sum_app, IH.
Qed.

Lemma tally_kid_paths (c : string) g a x l (ks : list xml) :
  (forall k, In k ks ->
             list_sum (map (load_of c k) (paths "channel" k)) = tally c k) ->
  list_sum (map (load_of c (Node g a x l ks)) (kid_paths "channel" 0 ks)) =
  list_sum (map (tally c) ks).
Proof.
  intros IH. rewrite kid_paths_indexed, list_sum_flat_map.
  rewrite <- (map_snd_indexed ks 0) at 2. rewrite map_map.
  f_equal. apply map_ext_in. intros [i k] Hik. simpl.
  apply In_indexed0 in Hik. rewrite map_map.
  rewrite <- IH by (eapply nth_error_In; eauto).
  f_equal. apply map_ext. intros q. unfold load_of. simpl. now rewrite Hik.
Qed.

Lemma tally_paths (c : string) (t : xml) :
  list_sum (map (load_of c t) (paths "channel" t)) = tally c t.
Proof.
  induction t as [tg a x l ks IH] using xml_ind.
  rewrite Forall_forall in IH.
  rewrite paths_eq, map_app, list_sum_app, tally_kid_paths by exact IH.
  simpl tally. f_equal.
  destruct (String.eqb tg "channel"); simpl; [|reflexivity].
  unfold load_of. simpl. lia.
Qed.

(** ** Children of a parsed element *)

Lemma Forall2_map_same {A B C : Type} (R : B -> C -> Prop)
  (f : A -> B) (g : A -> C) (l : list A) :
  (forall y, In y l -> R (f y) (g y)) -> Forall2 R (map f l) (map g l).
Proof.
  induction l as [|y l IH]; intros H; simpl; constructor.
  - apply H. now left.
  - apply IH. intros z Hz. apply H. now right.
Qed.

Lemma kids_Forall2 (R : addr -> xml -> Prop) (p : addr) (ks : list xml) :
  (forall i k, nth_error ks i = Some k -> R (p ++ [i]) k) ->
  Forall2 R (child_addrs p (length ks)) ks.
Proof.
  intros H. rewrite child_addrs_indexed.
  rewrite <- (map_snd_indexed ks 0) at 2.
  apply Forall2_map_same. intros [i k] Hik. apply H.
  now apply In_indexed0.
Qed.

Lemma In_child_addrs (p q : addr) (n : nat) :
  In q (child_addrs p n) <-> exists i, i < n /\ q = p ++ [i].
Proof.
  unfold child_addrs. rewrite in_map_iff. split.
  - intros [i [<- Hi]]. apply in_seq in Hi. exists i. split; [lia|reflexivity].
  - intros [i [Hi ->]]. exists i. split; [reflexivity|]. apply in_seq. lia.
Qed.

Lemma NoDup_child_addrs (p : addr) (n : nat) : NoDup (child_addrs p n).
Proof.
  unfold child_addrs. apply NoDup_map_NoDup_ForallPairs; [|apply seq_NoDup].
  intros i j _ _ E. apply app_inv_head in E. congruence.
Qed.

Lemma snoc_neq (p : addr) (i : nat) : p ++ [i] <> p.
Proof.
  intros E. apply (f_equal (@length nat)) in E.
  rewrite length_app in E. simpl in E. lia.
Qed.

Lemma subtree_child (t : xml) (p q : addr) g a x l ks :
  subtree t p = Some (Node g a x l ks) ->
  In q (child_addrs p (length ks)) ->
  exists i k, q = p ++ [i] /\ nth_error ks i = Some k /\
              subtree t q = Some k.
Proof.
  intros Hp Hq. apply In_child_addrs in Hq. destruct Hq as [i [Hi ->]].
  destruct (nth_error ks i) as [k|] eqn:Hik.
  - exists i, k. repeat split; auto. eapply subtree_kid; eauto.
  - apply nth_error_None in Hik. lia.
Qed.

(** ** Reading the store *)

Lemma select_tag_filter (h : heap) (g : string) (P : addr -> bool)
  (l : list addr) :
  (forall a, In a l -> exists e, h a = Some e /\ String.eqb (tag e) g = P a) ->
  select_tag h g l = Ok (filter P l).
Proof.
  induction l as [|a l IH]; intros H; simpl; [reflexivity|].
  destruct (H a (or_introl eq_refl)) as [e [He HP]].
  unfold deref. rewrite He. simpl. rewrite IH.
  - simpl. now rewrite HP.
  - intros b Hb. apply H. now right.
Qed.

Lemma first_tag_Forall2 (h : heap) (g : string) (l : list addr)
  (ks : list xml) :
  Forall2 (labelled h) l ks ->
  exists r, first_tag h g l = Ok r /\
            match r with
            | Some ce => exists s, first_kid g ks = Some s /\ labelled h ce s
            | None => first_kid g ks = None
            end.
Proof.
  induction 1 as [|a k l ks [e [He [Hg Hx]]] _ IH]; simpl.
  - exists None. auto.
  - unfold deref. rewrite He. simpl. rewrite Hg.
    destruct (String.eqb (x_tag k) g).
    + exists (Some a). split; [reflexivity|]. exists k. split; [reflexivity|].
      exists e. auto.
    + exact IH.
Qed.

Lemma on_channel_doc (t0 : xml) (c : string) (h : heap) (q : addr) (k : xml) :
  subtree t0 q = Some k -> h q = load t0 q -> same_label h (load t0) ->
  on_channel h q c = Ok (releases_on c k).
Proof.
  intros Hq Hhq Hl. destruct k as [g a x l ks].
  unfold on_channel, find, deref. rewrite Hhq, (load_at _ _ _ _ _ _ _ Hq).
  simpl bind.
  destruct (first_tag_Forall2 h sparkle_channel
              (child_addrs q (length ks)) ks) as [r [Hr Hs]].
  { apply kids_Forall2. intros i k Hik.
    assert (Hk : subtree t0 (q ++ [i]) = Some k)
      by (eapply subtree_kid; eauto).
    destruct k as [g' a' x' l' ks'].
    destruct (Hl _ _ (load_at _ _ _ _ _ _ _ Hk)) as [e [He [Hg Hx]]].
    exists e. auto. }
  rewrite Hr. simpl bind. unfold releases_on. simpl x_kids.
  destruct r as [ce|].
  - destruct Hs as [s [Hs [e [He [_ Hx]]]]]. rewrite He, Hs. simpl.
    now rewrite Hx.
  - now rewrite Hs.
Qed.

(** ** The inner loop *)

Lemma filter_all {A : Type} (f : A -> bool) (l : list A) :
  (forall x, In x l -> f x = true) -> filter f l = l.
Proof.
  induction l as [|y l IH]; intros H; simpl; [reflexivity|].
  rewrite (H y) by now left. f_equal. apply IH. intros x Hx. apply H. now right.
Qed.

Lemma filter_filter {A : Type} (f g : A -> bool) (l : list A) :
  filter f (filter g l) = filter (fun x => g x && f x) l.
Proof.
  induction l as [|y l IH]; simpl; [reflexivity|].
  destruct (g y); simpl; [destruct (f y)|]; now rewrite IH.
Qed.

Lemma remove_first_filter (x : addr) (l : list addr) :
  NoDup l -> remove_first x l = filter (fun y => negb (addr_eqb y x)) l.
Proof.
  induction 1 as [|y l Hy Hl IH]; simpl; [reflexivity|].
  destruct (addr_eqb y x) eqn:E; simpl.
  - apply addr_eqb_eq in E. subst y. symmetry. apply filter_all.
    intros z Hz. apply negb_true_iff, addr_eqb_neq. intros ->. contradiction.
  - now rewrite IH.
Qed.

Lemma inner_loop (c : string) (a : addr) (rel : addr -> bool)
  g at_ tx tl :
  forall (its cur : list addr) (h : heap) (n : nat),
    h a = Some (mkElement g at_ tx tl cur) ->
    NoDup cur -> NoDup its -> incl its cur ->
    (forall h', (forall b, b <> a -> h' b = h b) ->
                (exists cur', h' a = Some (mkElement g at_ tx tl cur')) ->
                forall q, In q its -> on_channel h' q c = Ok (rel q)) ->
    exists h',
      foldM (visit_item a c) its (h, n) = Ok (h', n + length (filter rel its))
      /\ h' a = Some (mkElement g at_ tx tl
                        (filter (fun q => negb (inb q its && rel q)) cur))
      /\ forall b, b <> a -> h' b = h b.
Proof.
  induction its as [|q its IH]; intros cur h n Ha Hcur Hits Hincl Hrel.
  - exists h. simpl. rewrite Nat.add_0_r. split; [reflexivity|].
    split; [|auto]. rewrite Ha. now rewrite filter_all.
  - inversion Hits as [|? ? Hq Hits']; subst.
    assert (Hqc : In q cur) by (apply Hincl; now left).
    assert (Hon : on_channel h q c = Ok (rel q)).
    { apply Hrel; [auto | eauto | now left]. }
destruct (rel q) eqn:Hrq.
    + set (cur1 := filter (fun y => negb (addr_eqb y q)) cur).
      set (h1 := upd h a (mkElement g at_ tx tl cur1)).
      assert (Hstep : visit_item a c (h, n) q = Ok (h1, n + 1)).
      { unfold visit_item. rewrite Hon. simpl bind.
        unfold Element_remove, deref. rewrite Ha. simpl.
        rewrite (proj2 (inb_In q cur) Hqc). simpl.
        now rewrite remove_first_filter by exact Hcur. }
      assert (H1a : h1 a = Some (mkElement g at_ tx tl cur1)).
      { unfold h1, upd. now rewrite addr_eqb_refl. }
      assert (H1b : forall b, b <> a -> h1 b = h b).
      { intros b Hb. unfold h1, upd.
        now rewrite (proj2 (addr_eqb_neq b a) Hb). }
      destruct (IH cur1 h1 (n + 1) H1a) as [h' [Hf [Ha' Hb']]].
      * apply NoDup_filter. exact Hcur.
      * exact Hits'.
      * intros x Hx. apply filter_In. split; [apply Hincl; now right|].
        apply negb_true_iff, addr_eqb_neq. intros ->. contradiction.
      * intros h' Hb' Ha' x Hx. apply Hrel; [|exact Ha'|now right].
        intros b Hb. rewrite Hb' by exact Hb. now apply H1b.
      * exists h'. split; [|split].
        -- rewrite foldM_cons, Hstep. simpl bind. rewrite Hf.
           simpl. rewrite Hrq. simpl. do 2 f_equal. lia.
        -- rewrite Ha'. do 2 f_equal. unfold cur1. rewrite filter_filter.
           apply filter_ext. intros x. simpl.
           destruct (addr_eqb x q) eqn:E; simpl; [|reflexivity].
           apply addr_eqb_eq in E. subst x. now rewrite Hrq.
        -- intros b Hb. rewrite Hb' by exact Hb. now apply H1b.
    + assert (Hstep : visit_item a c (h, n) q = Ok (h, n)).
      { unfold visit_item. now rewrite Hon. }
      destruct (IH cur h n Ha Hcur Hits') as [h' [Hf [Ha' Hb']]].
      * intros x Hx. apply Hincl. now right.
      * intros h' Hb' Ha' x Hx. apply Hrel; auto. now right.
      * exists h'. split; [|split; [|exact Hb']].
        -- rewrite foldM_cons, Hstep. simpl bind. rewrite Hf.
           simpl. now rewrite Hrq.
        -- rewrite Ha'. do 2 f_equal. apply filter_ext. intros x. simpl.
           destruct (addr_eqb x q) eqn:E; simpl; [|reflexivity].
           apply addr_eqb_eq in E. subst x. rewrite Hrq.
           destruct (inb q its) eqn:Hin; [|reflexivity].
           apply inb_In in Hin. contradiction.
Qed.

(** ** Children and their positions under a filter *)

Lemma filter_child_addrs (D : addr -> bool) (E : xml -> bool) (p : addr)
  (ks : list xml) :
  (forall i k, nth_error ks i = Some k -> D (p ++ [i]) = E k) ->
  filter D (child_addrs p (length ks)) =
  map (fun y => p ++ [fst y]) (filter (fun y => E (snd y)) (indexed 0 ks)).
Proof.
  intros H. rewrite child_addrs_indexed, filter_map_swap. f_equal.
  apply filter_ext_in. intros [i k] Hik. simpl. apply H.
  now apply In_indexed0.
Qed.

Lemma filter_kids (E : xml -> bool) (ks : list xml) :
  filter E ks = map snd (filter (fun y => E (snd y)) (indexed 0 ks)).
Proof.
  rewrite <- filter_map_swap. now rewrite map_snd_indexed.
Qed.

Lemma doomed_at_kid (c : string) (t : xml) (p : addr) (e k : xml) (i : nat) :
  subtree t p = Some e -> nth_error (x_kids e) i = Some k ->
  doomed_at c t (p ++ [i]) = doomed c k.
Proof.
  intros Hp Hi. unfold doomed_at. now rewrite (subtree_kid _ _ _ _ _ Hp Hi).
Qed.

Lemma length_doomed_children (c : string) (t : xml) (p : addr) g a x l ks :
  subtree t p = Some (Node g a x l ks) ->
  length (filter (doomed_at c t) (child_addrs p (length ks))) =
  load_of c t p.
Proof.
  intros Hp. unfold load_of. rewrite Hp. simpl x_kids.
  rewrite (filter_child_addrs _ (doomed c)), (filter_kids (doomed c)).
  - now rewrite !length_map.
  - intros i k Hik. eapply doomed_at_kid; eauto.
Qed.

(** ** The outer loop *)

Lemma visited_same_label (c : string) (t : xml) (done : addr -> bool)
  (h : heap) :
  visited c t done h -> same_label h (load t).
Proof.
  intros V b e0 Hb. rewrite (V b), Hb.
  destruct (done b); eexists; split; try reflexivity; split; reflexivity.
Qed.

Lemma visit_channel_ok (c : string) (t : xml) (done : addr -> bool)
  (h : heap) (n : nat) (a : addr) at_ tx tl ks :
  visited c t done h ->
  (forall d, done d = true ->
             exists e, subtree t d = Some e /\ x_tag e = "channel") ->
  done a = false ->
  subtree t a = Some (Node "channel" at_ tx tl ks) ->
  exists h',
    visit_channel c (h, n) a = Ok (h', n + load_of c t a) /\
    visited c t (fun b => addr_eqb b a || done b) h'.
Proof.
  intros V Hdone Ha Hsub.
  set (cs := child_addrs a (length ks)).
  assert (Hla : load t a = Some (mkElement "channel" at_ tx tl cs))
    by (apply load_at; exact Hsub).
  assert (Hha : h a = Some (mkElement "channel" at_ tx tl cs))
    by (rewrite (V a), Hla, Ha; reflexivity).
  assert (Hkid : forall q, In q cs ->
            exists k, subtree t q = Some k /\ q <> a /\
                      exists e, load t q = Some e /\ tag e = x_tag k).
  { intros q Hq.
    destruct (subtree_child _ _ _ _ _ _ _ _ Hsub Hq) as [i [k [-> [_ Hk]]]].
    exists k. split; [exact Hk|]. split; [apply snoc_neq|].
    destruct k as [g' a' x' l' ks'].
    eexists. split; [apply load_at; exact Hk | reflexivity]. }
  assert (Hitems : findall h a "item" = Ok (filter (item_at t) cs)).
  { unfold findall, deref. rewrite Hha. simpl bind. simpl children.
    apply select_tag_filter. intros q Hq.
    destruct (Hkid q Hq) as [k [Hk [_ [e [He Hg]]]]].
    rewrite (V q), He. unfold item_at. rewrite Hk.
    destruct (done q); eexists; (split; [reflexivity|]); simpl; now rewrite Hg. }
  destruct (inner_loop c a (release_at c t) "channel" at_ tx tl
              (filter (item_at t) cs) cs h n Hha) as [h' [Hf [Ha' Hb']]].
  - apply NoDup_child_addrs.
  - apply NoDup_filter, NoDup_child_addrs.
  - intros q Hq. apply filter_In in Hq. tauto.
  - intros h1 Hb1 [cur' Ha1] q Hq. apply filter_In in Hq.
    destruct Hq as [Hq Hit].
    destruct (Hkid q Hq) as [k [Hk [Hne _]]].
    unfold release_at. rewrite Hk. apply (on_channel_doc t); [exact Hk| |].
    + rewrite (Hb1 q Hne), (V q).
      destruct (done q) eqn:Hdq; [|now destruct (load t q)].
      destruct (Hdone q Hdq) as [e [He Hg]].
      unfold item_at in Hit. rewrite Hk in Hit.
      apply String.eqb_eq in Hit. congruence.
    + intros b e0 Hb. destruct (addr_eq_dec b a) as [->|Hba].
      * rewrite Ha1. rewrite Hla in Hb. inversion Hb; subst e0.
        eexists. split; [reflexivity|]. split; reflexivity.
      * rewrite (Hb1 b Hba). eapply visited_same_label; eauto.
  - exists h'. split.
    + unfold visit_channel. simpl fst. rewrite Hitems. simpl bind.
      rewrite Hf. do 2 f_equal. f_equal.
      rewrite <- (length_doomed_children c t a _ _ _ _ _ Hsub).
      fold cs. rewrite filter_filter. f_equal. apply filter_ext.
      intros q. unfold doomed_at, doomed, item_at, release_at.
      now destruct (subtree t q).
    + intros b. destruct (addr_eq_dec b a) as [->|Hba].
      * rewrite Ha', Hla, addr_eqb_refl. simpl. unfold shrink. simpl.
        do 2 f_equal. apply filter_ext_in. intros q Hq. f_equal.
        replace (inb q (filter (item_at t) cs)) with (item_at t q).
        -- unfold doomed_at, doomed, item_at, release_at.
           now destruct (subtree t q).
        -- destruct (item_at t q) eqn:Hit; symmetry.
           ++ apply inb_In, filter_In. auto.
           ++ destruct (inb q (filter (item_at t) cs)) eqn:Hin; [|reflexivity].
              apply inb_In, filter_In in Hin. destruct Hin; congruence.
      * rewrite (Hb' b Hba), (V b).
        now rewrite (proj2 (addr_eqb_neq b a) Hba).
Qed.

Lemma visited_ext (c : string) (t : xml) (d1 d2 : addr -> bool) (h : heap) :
  (forall b, d1 b = d2 b) -> visited c t d1 h -> visited c t d2 h.
Proof. intros E V b. rewrite (V b), (E b). reflexivity. Qed.

Lemma outer_loop (c : string) (t : xml) :
  forall (l : list addr) (done : addr -> bool) (h : heap) (n : nat),
    NoDup l ->
    (forall a, In a l ->
               done a = false /\
               exists e, subtree t a = Some e /\ x_tag e = "channel") ->
    (forall d, done d = true ->
               exists e, subtree t d = Some e /\ x_tag e = "channel") ->
    visited c t done h ->
    exists h',
      foldM (visit_channel c) l (h, n) =
        Ok (h', n + list_sum (map (load_of c t) l)) /\
      visited c t (fun b => inb b l || done b) h'.
Proof.
  induction l as [|a l IH]; intros done h n Hnd Hl Hdone V.
  - exists h. simpl. rewrite Nat.add_0_r. split; [reflexivity|].
    eapply visited_ext; [|exact V]. reflexivity.
  - inversion Hnd as [|? ? Ha Hnd']; subst.
    destruct (Hl a (or_introl eq_refl)) as [Hda [e [He Hg]]].
    destruct e as [g at_ tx tl ks]. simpl in Hg. subst g.
    destruct (visit_channel_ok c t done h n a at_ tx tl ks V Hdone Hda He)
      as [h1 [Hstep V1]].
    destruct (IH (fun b => addr_eqb b a || done b) h1 (n + load_of c t a) Hnd')
      as [h' [Hf V']]; [| |exact V1|].
    + intros x Hx. destruct (Hl x (or_intror Hx)) as [Hdx Hx'].
      split; [|exact Hx']. simpl.
      rewrite Hdx, orb_false_r. apply addr_eqb_neq. intros ->. contradiction.
    + intros d Hd. apply orb_true_iff in Hd. destruct Hd as [Hd|Hd].
      * apply addr_eqb_eq in Hd. subst d. eexists. split; [exact He|reflexivity].
      * now apply Hdone.
    + exists h'. split.
      * rewrite foldM_cons, Hstep. simpl bind. rewrite Hf.
        simpl. do 2 f_equal. lia.
      * eapply visited_ext; [|exact V']. intros b. simpl.
        destruct (addr_eqb b a), (inb b l), (done b); reflexivity.
Qed.

Lemma visited_load (c : string) (t : xml) :
  visited c t (fun _ => false) (load t).
Proof. intros a. now destruct (load t a). Qed.

Lemma channels_below_root (g : string) (t : xml) :
  filter (fun e => negb (addr_eqb e [])) (map (app []) (paths g t)) =
  kid_paths g 0 (x_kids t).
Proof.
  rewrite (map_ext _ (fun p => p)) by reflexivity. rewrite map_id.
  destruct t as [tg a x l ks]. rewrite paths_eq, filter_app. simpl x_kids.
  replace (filter _ (if String.eqb tg g then [[]] else [])) with (@nil addr)
    by (destruct (String.eqb tg g); reflexivity).
  simpl. apply filter_all. intros q Hq. apply kid_paths_head in Hq.
  destruct Hq as [j [q' [-> _]]]. reflexivity.
Qed.

Lemma In_channels_below (t : xml) (b : addr) :
  In b (kid_paths "channel" 0 (x_kids t)) <-> channel_below t b = true.
Proof.
  rewrite <- channels_below_root, filter_In.
  rewrite (map_ext _ (fun p => p)) by reflexivity. rewrite map_id, In_paths.
  unfold channel_below. destruct b as [|i b].
  - simpl. split; [intros [_ H]; discriminate | discriminate].
  - split.
    + intros [[e [-> He]] _]. now apply String.eqb_eq.
    + intros H. split; [|reflexivity].
      destruct (subtree t (i :: b)) as [e|]; [|discriminate].
      exists e. split; [reflexivity|]. now apply String.eqb_eq.
Qed.

(** Lines 33 to 43 on a parsed document: the loops end without an error,
    every [channel] below the root has lost its doomed children, nothing
    else has changed, and the counter is the number of doomed children. *)
Lemma remove_releases_ok (c : string) (t : xml) (fuel : nat) :
  height t <= fuel ->
  exists h',
    remove_releases fuel (load t) [] c = Ok (h', tally_root c t) /\
    visited c t (channel_below t) h'.
Proof.
  intros Hf. unfold remove_releases, findall_descendants.
  rewrite (iter_load t "channel" t [] fuel eq_refl Hf). simpl bind.
  rewrite channels_below_root.
  destruct (outer_loop c t (kid_paths "channel" 0 (x_kids t))
              (fun _ => false) (load t) 0) as [h' [Hfold V]].
  - pose proof (NoDup_paths "channel" t) as N. destruct t as [tg a x l ks].
    rewrite paths_eq in N. now apply NoDup_app_remove_l in N.
  - intros a Ha. split; [reflexivity|].
    apply In_channels_below in Ha. unfold channel_below in Ha.
    destruct a as [|i a]; [discriminate|].
    destruct (subtree t (i :: a)) as [e|]; [|discriminate].
    exists e. split; [reflexivity|]. now apply String.eqb_eq.
  - discriminate.
  - apply visited_load.
  - exists h'. split.
    + rewrite Hfold. simpl. do 2 f_equal. unfold tally_root.
      destruct t as [tg a x l ks]. simpl x_kids.
      apply tally_kid_paths. intros k _. apply tally_paths.
    + eapply visited_ext; [|exact V]. intros b. cbv beta.
      rewrite orb_false_r.
      destruct (inb b _) eqn:E; symmetry.
      * now apply In_channels_below, inb_In.
      * destruct (channel_below t b) eqn:E'; [|reflexivity].
        apply In_channels_below, inb_In in E'. congruence.
Qed.

(** ** Writing the tree back *)

Lemma prune_eq (c : string) g a x l (ks : list xml) :
  prune c (Node g a x l ks) =
  Node g a x l
    (map (prune c)
       (if String.eqb g "channel"
        then filter (fun k => negb (doomed c k)) ks else ks)).
Proof.
  simpl. f_equal. destruct (String.eqb g "channel"); simpl.
  - induction ks as [|k ks IH]; simpl; [reflexivity|].
    destruct (doomed c k); simpl; now rewrite IH.
  - induction ks as [|k ks IH]; simpl; [reflexivity|]. now rewrite IH.
Qed.

Lemma channel_below_cons (t : xml) (p : addr) (e : xml) :
  p <> [] -> subtree t p = Some e ->
  channel_below t p = String.eqb (x_tag e) "channel".
Proof.
  intros Hp He. unfold channel_below. destruct p; [congruence|].
  now rewrite He.
Qed.

(** ** The serialiser on the store that the loops leave *)

Lemma mapM_ok_inv {A B : Type} (f : A -> result B) (l : list A)
  (r : list B) :
  mapM f l = Ok r -> Forall2 (fun x y => f x = Ok y) l r.
Proof.
  revert r; induction l as [|x l IH]; simpl; intros r H.
  - inversion H. constructor.
  - destruct (f x) as [y|e] eqn:Hx; simpl in H; [|discriminate].
    destruct (mapM f l) as [ys|e]; simpl in H; [|discriminate].
    inversion H; subst. constructor; auto.
Qed.

Lemma mapM_mono {A B : Type} (f g : A -> result B) (l : list A)
  (r : list B) :
  (forall x y, f x = Ok y -> g x = Ok y) ->
  mapM f l = Ok r -> mapM g l = Ok r.
Proof.
  intros Hfg. revert r; induction l as [|x l IH]; simpl; intros r H; [exact H|].
  destruct (f x) as [y|e] eqn:Hx; simpl in H; [|discriminate].
  destruct (mapM f l) as [ys|e]; simpl in H; [|discriminate].
  rewrite (Hfg x y Hx). simpl. now rewrite (IH ys eq_refl).
Qed.

Lemma mapM_dichotomy {A B : Type} (f : A -> result B) (e : exn)
  (l : list A) :
  (forall x, In x l -> (exists y, f x = Ok y) \/ f x = Raise e) ->
  (exists r, mapM f l = Ok r) \/ mapM f l = Raise e.
Proof.
  induction l as [|x l IH]; intros H; simpl.
  - left. now exists [].
  - destruct (H x (or_introl eq_refl)) as [[y ->] | ->]; simpl; [|now right].
    destruct IH as [[r ->] | ->]; simpl.
    + intros z Hz. apply H. now right.
    + left. eauto.
    + now right.
Qed.

Lemma heights_le (ks : list xml) (n : nat) :
  (forall k, In k ks -> height k <= n) ->
  fold_right (fun k m => Nat.max (height k) m) 0 ks <= n.
Proof.
  induction ks as [|k ks IH]; intros H; simpl; [lia|].
  pose proof (H k (or_introl eq_refl)).
  assert (fold_right (fun k m => Nat.max (height k) m) 0 ks <= n)
    by (apply IH; intros k' Hk'; apply H; now right).
  lia.
Qed.

(** A tree that the serialiser has written is no taller than its fuel. *)
Lemma dump_height (fuel : nat) (h : heap) :
  forall a d, dump fuel h a = Ok d -> height d <= fuel.
Proof.
  induction fuel as [|fuel IH]; intros a d H; simpl in H; [discriminate|].
  unfold deref in H. destruct (h a) as [e|]; simpl in H; [|discriminate].
  destruct (mapM (dump fuel h) (children e)) as [ks|e'] eqn:M;
    simpl in H; [|discriminate].
  inversion H; subst d. simpl. apply le_n_S. apply heights_le.
  apply mapM_ok_inv in M. intros k Hk.
  induction M as [|x y l r Hxy _ IHM]; [destruct Hk|].
  destruct Hk as [<-|Hk]; [eapply IH; eauto | auto].
Qed.

(** More fuel does not change what it writes. *)
Lemma dump_mono (fuel : nat) (h : heap) :
  forall a d fuel', dump fuel h a = Ok d -> fuel <= fuel' ->
                    dump fuel' h a = Ok d.
Proof.
  induction fuel as [|fuel IH]; intros a d fuel' H Hle; simpl in H;
    [discriminate|].
  destruct fuel' as [|fuel']; [lia|]. simpl.
  unfold deref in *. destruct (h a) as [e|]; simpl in *; [|discriminate].
  destruct (mapM (dump fuel h) (children e)) as [ks|e'] eqn:M;
    simpl in H; [|discriminate].
  rewrite (mapM_mono (dump fuel h) (dump fuel' h) _ ks); [exact H| |exact M].
  intros x y Hxy. apply (IH x y fuel' Hxy). lia.
Qed.

Lemma In_indexed_snd {A : Type} (l : list A) (y : nat * A) :
  In y (indexed 0 l) -> In (snd y) l.
Proof.
  destruct y as [i x]. intros H. apply In_indexed0 in H.
  eapply nth_error_In; eauto.
Qed.

(** With fuel for the height of the pruned tree, the serialiser writes the
    pruned tree. *)
Lemma dump_pruned (c : string) (t0 : xml) (h : heap) (t : xml) :
  visited c t0 (channel_below t0) h ->
  forall (p : addr) (fuel : nat),
    p <> [] -> subtree t0 p = Some t -> height (prune c t) <= fuel ->
    dump fuel h p = Ok (prune c t).
Proof.
  intros V. induction t as [tg a x l ks IH] using xml_ind.
  intros p fuel Hp Hsub Hf. rewrite Forall_forall in IH.
  rewrite prune_eq in Hf |- *.
  destruct fuel as [|fuel]; [simpl in Hf; lia|].
  set (KS := if String.eqb tg "channel"
             then filter (fun k => negb (doomed c k)) ks else ks) in *.
  assert (Hkid : forall y, In y (indexed 0 ks) -> In (snd y) KS ->
            dump fuel h (p ++ [fst y]) = Ok (prune c (snd y))).
  { intros [i k] Hik HK. cbn [fst snd] in *. apply In_indexed0 in Hik.
    assert (Hk : In k ks) by (eapply nth_error_In; eauto).
    apply IH; [exact Hk | | |].
    - intros E. apply app_eq_nil in E. destruct E; discriminate.
    - eapply subtree_kid; eauto.
    - pose proof (height_kid (prune c k) (map (prune c) KS) tg a x l
                    (in_map (prune c) KS k HK)). lia. }
  simpl dump. unfold deref.
  rewrite (V p), (load_at _ _ _ _ _ _ _ Hsub),
    (channel_below_cons _ _ _ Hp Hsub).
  simpl x_tag. unfold KS in *. clear KS.
  destruct (String.eqb tg "channel"); simpl bind.
  - unfold shrink. simpl.
    rewrite (filter_child_addrs _ (fun k => negb (doomed c k))).
    + rewrite (mapM_map_in _ _ (fun y => prune c (snd y))).
      * simpl. now rewrite filter_kids, map_map.
      * intros y Hy. apply filter_In in Hy. destruct Hy as [Hy1 Hy2].
        apply Hkid; [exact Hy1|]. apply filter_In. split; [|exact Hy2].
        now apply In_indexed_snd.
    + intros i k Hik. f_equal. eapply doomed_at_kid; eauto.
  - simpl. rewrite child_addrs_indexed.
    rewrite (mapM_map_in _ _ (fun y => prune c (snd y))).
    + simpl. rewrite <- (map_snd_indexed ks 0) at 2. now rewrite map_map.
    + intros y Hy. apply Hkid; [exact Hy|]. now apply In_indexed_snd.
Qed.

Lemma dump_root (c : string) (t : xml) (h : heap) (fuel : nat) :
  visited c t (channel_below t) h -> height (prune_root c t) <= fuel ->
  dump fuel h [] = Ok (prune_root c t).
Proof.
  intros V Hf. destruct t as [tg a x l ks].
  destruct fuel as [|fuel]; [simpl in Hf; lia|].
  simpl dump. unfold deref.
  rewrite (V []), (load_at _ [] tg a x l ks eq_refl). simpl bind.
  rewrite child_addrs_indexed.
  rewrite (mapM_map_in _ _ (fun y => prune c (snd y))).
  - simpl. rewrite <- (map_snd_indexed ks 0) at 2. now rewrite map_map.
  - intros [i k] Hik. simpl. apply In_indexed0 in Hik.
    assert (Hk : In k ks) by (eapply nth_error_In; eauto).
    apply (dump_pruned c (Node tg a x l ks)); [exact V|discriminate| |].
    + simpl. now rewrite Hik.
    + pose proof (height_kid (prune c k) (map (prune c) ks) tg a x l
                    (in_map (prune c) ks k Hk)).
      simpl in Hf. simpl in H. lia.
Qed.

(** Whatever the fuel, what the serialiser writes is the pruned tree, and
    the fuel was enough for its height. *)
Lemma dump_root_inv (c : string) (t : xml) (h : heap) (fuel : nat) (d : xml) :
  visited c t (channel_below t) h -> dump fuel h [] = Ok d ->
  d = prune_root c t /\ height (prune_root c t) <= fuel.
Proof.
  intros V H.
  assert (E : d = prune_root c t).
  { pose proof (dump_mono fuel h [] d
                  (Nat.max fuel (height (prune_root c t))) H
                  (Nat.le_max_l _ _)) as H1.
    rewrite (dump_root c t h _ V (Nat.le_max_r _ _)) in H1. congruence. }
  split; [exact E|]. rewrite <- E. eapply dump_height; eauto.
Qed.

(** On that store the serialiser ends with a tree or with
    [RecursionError], never otherwise. *)
Lemma dump_outcome (c : string) (t0 : xml) (h : heap) (t : xml) :
  visited c t0 (channel_below t0) h ->
  forall (p : addr) (fuel : nat),
    subtree t0 p = Some t ->
    (exists d, dump fuel h p = Ok d) \/ dump fuel h p = Raise RecursionError.
Proof.
  intros V. induction t as [tg a x l ks IH] using xml_ind.
  intros p fuel Hsub. rewrite Forall_forall in IH.
  destruct fuel as [|fuel]; [now right|].
  assert (Hkid : forall q, In q (child_addrs p (length ks)) ->
            (exists d, dump fuel h q = Ok d) \/
            dump fuel h q = Raise RecursionError).
  { intros q Hq.
    destruct (subtree_child _ _ _ _ _ _ _ _ Hsub Hq) as [i [k [-> [Hik Hk]]]].
    apply (IH k); [eapply nth_error_In; eauto | exact Hk]. }
  simpl dump. unfold deref. rewrite (V p), (load_at _ _ _ _ _ _ _ Hsub).
  destruct (channel_below t0 p); simpl bind.
  - destruct (mapM_dichotomy (dump fuel h) RecursionError
                (filter (fun q => negb (doomed_at c t0 q))
                   (child_addrs p (length ks)))) as [[r ->] | ->].
    + intros q Hq. apply Hkid. apply filter_In in Hq. tauto.
    + left. simpl. eauto.
    + now right.
  - destruct (mapM_dichotomy (dump fuel h) RecursionError
                (child_addrs p (length ks)) Hkid) as [[r ->] | ->].
    + left. simpl. eauto.
    + now right.
Qed.

Lemma dump_root_too_deep (c : string) (t : xml) (h : heap) (fuel : nat) :
  visited c t (channel_below t) h -> fuel < height (prune_root c t) ->
  dump fuel h [] = Raise RecursionError.
Proof.
  intros V Hlt.
  destruct (dump_outcome c t h t V [] fuel eq_refl) as [[d Hd] | H];
    [|exact H].
  destruct (dump_root_inv c t h fuel d V Hd) as [_ Hle]. lia.
Qed.

(** ** Properties of the pruned document *)

Lemma x_tag_prune (c : string) (k : xml) : x_tag (prune c k) = x_tag k.
Proof. now destruct k. Qed.

Lemma x_text_prune (c : string) (k : xml) : x_text (prune c k) = x_text k.
Proof. now destruct k. Qed.

Lemma first_kid_map_prune (c g : string) (ks : list xml) :
  first_kid g (map (prune c) ks) = option_map (prune c) (first_kid g ks).
Proof.
  induction ks as [|k ks IH]; simpl; [reflexivity|].
  rewrite x_tag_prune. now destruct (String.eqb (x_tag k) g).
Qed.

Lemma first_kid_filter (g : string) (f : xml -> bool) (ks : list xml) :
  (forall k, f k = false -> String.eqb (x_tag k) g = false) ->
  first_kid g (filter f ks) = first_kid g ks.
Proof.
  intros H. induction ks as [|k ks IH]; simpl; [reflexivity|].
  destruct (f k) eqn:Hf; simpl.
  - now rewrite IH.
  - now rewrite (H k Hf).
Qed.

Lemma doomed_not_sparkle (c : string) (k : xml) :
  negb (doomed c k) = false -> String.eqb (x_tag k) sparkle_channel = false.
Proof.
  unfold doomed. intros H. apply negb_false_iff, andb_true_iff in H.
  destruct H as [H _]. apply String.eqb_eq in H. now rewrite H.
Qed.

Lemma releases_on_prune (c : string) (k : xml) :
  releases_on c (prune c k) = releases_on c k.
Proof.
  destruct k as [g a x l ks]. rewrite prune_eq. unfold releases_on.
  simpl x_kids. rewrite first_kid_map_prune.
  replace (first_kid sparkle_channel
             (if String.eqb g "channel"
              then filter (fun k => negb (doomed c k)) ks else ks))
    with (first_kid sparkle_channel ks).
  - destruct (first_kid sparkle_channel ks); simpl; [|reflexivity].
    now rewrite x_text_prune.
  - destruct (String.eqb g "channel"); [|reflexivity].
    symmetry. apply first_kid_filter. apply doomed_not_sparkle.
Qed.

Lemma doomed_prune (c : string) (k : xml) :
  doomed c (prune c k) = doomed c k.
Proof. unfold doomed. now rewrite x_tag_prune, releases_on_prune. Qed.

Lemma filter_map_prune (c : string) (ks : list xml) :
  filter (fun k => negb (doomed c k)) (map (prune c) ks) =
  map (prune c) (filter (fun k => negb (doomed c k)) ks).
Proof.
  rewrite filter_map_swap. f_equal. apply filter_ext.
  intros k. now rewrite doomed_prune.
Qed.

Lemma filter_twice {A : Type} (f : A -> bool) (l : list A) :
  filter f (filter f l) = filter f l.
Proof.
  rewrite filter_filter. apply filter_ext. intros x. now destruct (f x).
Qed.

Lemma prune_idem (c : string) (t : xml) : prune c (prune c t) = prune c t.
Proof.
  induction t as [g a x l ks IH] using xml_ind.
  rewrite Forall_forall in IH. rewrite !prune_eq. f_equal.
  destruct (String.eqb g "channel").
  - rewrite filter_map_prune, filter_twice, map_map.
    apply map_ext_in. intros k Hk. apply IH. apply filter_In in Hk. tauto.
  - rewrite map_map. apply map_ext_in. exact IH.
Qed.

Lemma prune_root_idem (c : string) (t : xml) :
  prune_root c (prune_root c t) = prune_root c t.
Proof.
  destruct t as [g a x l ks]. simpl. f_equal. rewrite map_map.
  apply map_ext. intros k. apply prune_idem.
Qed.

Lemma list_sum_zero (l : list nat) :
  (forall n, In n l -> n = 0) -> list_sum l = 0.
Proof.
  induction l as [|n l IH]; intros H; simpl; [reflexivity|].
  rewrite (H n (or_introl eq_refl)), IH; [reflexivity|].
  intros m Hm. apply H. now right.
Qed.

Lemma filter_none {A : Type} (f : A -> bool) (l : list A) :
  (forall x, In x l -> f x = false) -> filter f l = [].
Proof.
  induction l as [|y l IH]; intros H; simpl; [reflexivity|].
  rewrite (H y (or_introl eq_refl)). apply IH. intros x Hx. apply H. now right.
Qed.

Lemma tally_prune (c : string) (t : xml) : tally c (prune c t) = 0.
Proof.
  induction t as [g a x l ks IH] using xml_ind.
  rewrite Forall_forall in IH. rewrite prune_eq. simpl tally.
  assert (S0 : forall ks', incl ks' ks ->
                 list_sum (map (tally c) (map (prune c) ks')) = 0).
  { intros ks' Hi. apply list_sum_zero. intros n Hn.
    rewrite map_map in Hn. apply in_map_iff in Hn.
    destruct Hn as [k [<- Hk]]. apply IH, Hi, Hk. }
  destruct (String.eqb g "channel").
  - rewrite S0 by (intros k Hk; apply filter_In in Hk; tauto).
    rewrite filter_none; [reflexivity|].
    intros k Hk. apply in_map_iff in Hk. destruct Hk as [k' [<- Hk']].
    rewrite doomed_prune. apply filter_In in Hk'.
    now apply negb_true_iff.
  - now rewrite S0 by apply incl_refl.
Qed.

Lemma tally_root_prune (c : string) (t : xml) :
  tally_root c (prune_root c t) = 0.
Proof.
  destruct t as [g a x l ks]. unfold tally_root. simpl.
  apply list_sum_zero. intros n Hn. rewrite map_map in Hn.
  apply in_map_iff in Hn. destruct Hn as [k [<- _]]. apply tally_prune.
Qed.

(** A [channel] element of a pruned subtree has no doomed child. *)
Lemma prune_clean (c : string) (t : xml) :
  forall (p : addr) (ch it : xml),
    subtree (prune c t) p = Some ch -> x_tag ch = "channel" ->
    In it (x_kids ch) -> doomed c it = false.
Proof.
  induction t as [g a x l ks IH] using xml_ind.
  rewrite Forall_forall in IH. intros p ch it Hp Hg Hit.
  rewrite prune_eq in Hp. destruct p as [|i p].
  - simpl in Hp. inversion Hp; subst ch. simpl in Hg, Hit. subst g.
    rewrite String.eqb_refl in Hit. apply in_map_iff in Hit.
    destruct Hit as [k [<- Hk]]. rewrite doomed_prune.
    apply filter_In in Hk. now apply negb_true_iff.
  - simpl in Hp.
    destruct (nth_error _ i) as [k'|] eqn:Hi; [|discriminate].
    apply nth_error_In, in_map_iff in Hi. destruct Hi as [k [<- Hk]].
    apply (IH k) with (p := p) (ch := ch); auto.
    destruct (String.eqb g "channel"); [apply filter_In in Hk|]; tauto.
Qed.

Lemma prune_root_clean (c : string) (t : xml) (p : addr) (ch it : xml) :
  p <> [] -> subtree (prune_root c t) p = Some ch -> x_tag ch = "channel" ->
  In it (x_kids ch) -> doomed c it = false.
Proof.
  intros Hne Hp Hg Hit. destruct t as [g a x l ks].
  destruct p as [|i p]; [congruence|]. simpl in Hp.
  destruct (nth_error _ i) as [k'|] eqn:Hi; [|discriminate].
  apply nth_error_In, in_map_iff in Hi. destruct Hi as [k [<- Hk]].
  eapply prune_clean; eauto.
Qed.

(** Where no [channel] element has a doomed child, pruning changes nothing. *)
Lemma prune_nothing (c : string) (t : xml) :
  (forall p ch it, subtree t p = Some ch -> x_tag ch = "channel" ->
                   In it (x_kids ch) -> doomed c it = false) ->
  prune c t = t /\ tally c t = 0.
Proof.
  induction t as [g a x l ks IH] using xml_ind.
  rewrite Forall_forall in IH. intros H.
  assert (Hk : forall k, In k ks -> prune c k = k /\ tally c k = 0).
  { intros k Hk. apply IH; [exact Hk|]. intros p ch it Hp.
    destruct (In_nth_error _ _ Hk) as [i Hi].
    apply (H (i :: p)). simpl. now rewrite Hi. }
  assert (Hf : String.eqb g "channel" = true ->
               filter (fun k => negb (doomed c k)) ks = ks).
  { intros E. apply String.eqb_eq in E. apply filter_all. intros k Hin.
    apply negb_true_iff. apply (H [] (Node g a x l ks) k); auto. }
  rewrite prune_eq. simpl tally. split.
  - f_equal. destruct (String.eqb g "channel"); [rewrite Hf by reflexivity|];
      (rewrite <- (map_id ks) at 2; apply map_ext_in; intros k Hin;
       now apply Hk).
  - rewrite (list_sum_zero (map (tally c) ks)).
    + destruct (String.eqb g "channel") eqn:E; [|reflexivity].
      rewrite filter_none; [reflexivity|]. intros k Hin.
      apply String.eqb_eq in E. apply (H [] (Node g a x l ks) k); auto.
    + intros n Hn. apply in_map_iff in Hn. destruct Hn as [k [<- Hin]].
      now apply Hk.
Qed.

Lemma prune_root_nothing (c : string) (t : xml) :
  (forall p ch it, p <> [] -> subtree t p = Some ch -> x_tag ch = "channel" ->
                   In it (x_kids ch) -> doomed c it = false) ->
  prune_root c t = t /\ tally_root c t = 0.
Proof.
  intros H. destruct t as [g a x l ks]. unfold tally_root. simpl x_kids.
  assert (Hk : forall k, In k ks -> prune c k = k /\ tally c k = 0).
  { intros k Hk. apply prune_nothing. intros p ch it Hp.
    destruct (In_nth_error _ _ Hk) as [i Hi].
    apply (H (i :: p)); [discriminate|]. simpl. now rewrite Hi. }
  split.
  - simpl. f_equal. rewrite <- (map_id ks) at 2. apply map_ext_in.
    intros k Hin. now apply Hk.
  - apply list_sum_zero. intros n Hn. apply in_map_iff in Hn.
    destruct Hn as [k [<- Hin]]. now apply Hk.
Qed.

(** ** Further facts about the store and the pruned document *)

Lemma write_file_same (fs : filesystem) (path : string) (d : content) :
  write_file fs path d path = Some d.
Proof. unfold write_file. now rewrite String.eqb_refl. Qed.

Lemma write_file_other (fs : filesystem) (path q : string) (d : content) :
  q <> path -> write_file fs path d q = fs q.
Proof.
  intros H. unfold write_file. now rewrite (proj2 (String.eqb_neq q path) H).
Qed.

Lemma text_is_true (x : option string) (c : string) :
  text_is x c = true <-> x = Some c.
Proof.
  destruct x as [s|]; simpl.
  - rewrite String.eqb_eq. split; congruence.
  - split; discriminate.
Qed.

(** The store left by the loops. *)
Lemma store_after_ok (c : string) (t : xml) :
  exists h', store_after t c = Ok h' /\ visited c t (channel_below t) h'.
Proof.
  unfold store_after.
  destruct (remove_releases_ok c t (height t) (Nat.le_refl _))
    as [h' [-> V]].
  exists h'. split; [reflexivity | exact V].
Qed.

(** A child that is not doomed stays where it is. *)
Lemma kept_child (c : string) (t : xml) (h' : heap) (p : addr) (i : nat)
  (parent k : xml) :
  visited c t (channel_below t) h' ->
  subtree t p = Some parent -> nth_error (x_kids parent) i = Some k ->
  exists e', h' p = Some e' /\
             (In (p ++ [i]) (children e') <->
              ~ (channel_below t p = true /\ doomed c k = true)).
Proof.
  intros V Hp Hi. destruct parent as [g a x l ks]. simpl in Hi.
  assert (Hin : In (p ++ [i]) (child_addrs p (length ks))).
  { apply In_child_addrs. exists i. split; [|reflexivity].
    apply nth_error_Some. congruence. }
  assert (Hd : doomed_at c t (p ++ [i]) = doomed c k)
    by (eapply doomed_at_kid; eauto).
  rewrite (V p), (load_at _ _ _ _ _ _ _ Hp).
  destruct (channel_below t p); eexists; (split; [reflexivity|]); simpl.
  - rewrite filter_In, Hd. destruct (doomed c k); simpl; split.
    + intros [_ H]. discriminate.
    + intros H. exfalso. apply H. auto.
    + intros _ [_ H]. discriminate.
    + auto.
  - split; [intros _ [H _]; discriminate | auto].
Qed.

(** An [item] object is never modified. *)
Lemma item_untouched (c : string) (t : xml) (h' : heap) (q : addr) (it : xml) :
  visited c t (channel_below t) h' ->
  subtree t q = Some it -> x_tag it = "item" ->
  h' q = load t q.
Proof.
  intros V Hq Hg. rewrite (V q).
  replace (channel_below t q) with false; [now destruct (load t q)|].
  unfold channel_below. destruct q; [reflexivity|]. now rewrite Hq, Hg.
Qed.

Lemma first_kid_app (g : string) (pre rest : list xml) (s : xml) :
  (forall k, In k pre -> x_tag k <> g) -> x_tag s = g ->
  first_kid g (pre ++ s :: rest) = Some s.
Proof.
  intros Hpre Hs. induction pre as [|k pre IH]; simpl.
  - now rewrite Hs, String.eqb_refl.
  - rewrite (proj2 (String.eqb_neq (x_tag k) g)) by (apply Hpre; now left).
    apply IH. intros k' Hk'. apply Hpre. now right.
Qed.


(** An element without [channel] elements inside is written as it was. *)
Lemma prune_no_channel (c : string) (t : xml) :
  paths "channel" t = [] -> prune c t = t.
Proof.
  intros H. apply prune_nothing. intros p ch it Hp Hg _.
  assert (Hin : In p (paths "channel" t)) by (apply In_paths; eauto).
  rewrite H in Hin. destruct Hin.
Qed.

Lemma list_sum_zero_inv (l : list nat) :
  list_sum l = 0 -> forall n, In n l -> n = 0.
Proof.
  induction l as [|m l IH]; simpl; intros H n Hn; [destruct Hn|].
  destruct Hn as [<-|Hn]; [lia|]. apply IH; [lia | exact Hn].
Qed.

Lemma tally_zero_no_doomed (c : string) (t : xml) :
  tally c t = 0 ->
  forall p ch it, subtree t p = Some ch -> x_tag ch = "channel" ->
                  In it (x_kids ch) -> doomed c it = false.
Proof.
  induction t as [g a x l ks IH] using xml_ind.
  rewrite Forall_forall in IH. intros H p ch it Hp Hg Hit.
  simpl in H. apply Nat.eq_add_0 in H. destruct H as [H1 H2].
  destruct p as [|i p]; simpl in Hp.
  - inversion Hp; subst ch. simpl in Hg, Hit. subst g.
    rewrite String.eqb_refl in H1. apply length_zero_iff_nil in H1.
    destruct (doomed c it) eqn:D; [|reflexivity].
    assert (Hin : In it (filter (doomed c) ks)) by (apply filter_In; auto).
    rewrite H1 in Hin. destruct Hin.
  - destruct (nth_error ks i) as [k|] eqn:Hi; [|discriminate].
    apply nth_error_In in Hi.
    apply (IH k Hi) with (p := p) (ch := ch); auto.
    apply (list_sum_zero_inv _ H2). now apply in_map.
Qed.

Lemma tally_root_zero_unchanged (c : string) (t : xml) :
  tally_root c t = 0 -> prune_root c t = t.
Proof.
  intros H. apply prune_root_nothing. intros p ch it Hne Hp Hg Hit.
  destruct t as [g a x l ks]. destruct p as [|i p]; [congruence|].
  simpl in Hp. destruct (nth_error ks i) as [k|] eqn:Hi; [|discriminate].
  apply nth_error_In in Hi.
  apply (tally_zero_no_doomed c k) with (p := p) (ch := ch); auto.
  apply (list_sum_zero_inv _ H). now apply in_map.
Qed.

Lemma releases_on_prune_other (c c' : string) (k : xml) :
  releases_on c (prune c' k) = releases_on c k.
Proof.
  destruct k as [g a x l ks]. rewrite prune_eq. unfold releases_on.
  simpl x_kids. rewrite first_kid_map_prune.
  replace (first_kid sparkle_channel
             (if String.eqb g "channel"
              then filter (fun k => negb (doomed c' k)) ks else ks))
    with (first_kid sparkle_channel ks).
  - destruct (first_kid sparkle_channel ks); simpl; [|reflexivity].
    now rewrite x_text_prune.
  - destruct (String.eqb g "channel"); [|reflexivity].
    symmetry. apply first_kid_filter. apply doomed_not_sparkle.
Qed.

Lemma doomed_prune_other (c c' : string) (k : xml) :
  doomed c (prune c' k) = doomed c k.
Proof. unfold doomed. now rewrite x_tag_prune, releases_on_prune_other. Qed.

Lemma filter_map_prune_other (c c' : string) (ks : list xml) :
  filter (fun k => negb (doomed c k)) (map (prune c') ks) =
  map (prune c') (filter (fun k => negb (doomed c k)) ks).
Proof.
  rewrite filter_map_swap. f_equal. apply filter_ext.
  intros k. now rewrite doomed_prune_other.
Qed.

Lemma prune_comm (c1 c2 : string) (t : xml) :
  prune c1 (prune c2 t) = prune c2 (prune c1 t).
Proof.
  induction t as [g a x l ks IH] using xml_ind.
  rewrite Forall_forall in IH. rewrite !prune_eq. f_equal.
  destruct (String.eqb g "channel").
  - rewrite !filter_map_prune_other, !map_map, !filter_filter.
    rewrite (filter_ext (fun x0 => negb (doomed c1 x0) && negb (doomed c2 x0))
               (fun x0 => negb (doomed c2 x0) && negb (doomed c1 x0)))
      by (intros k; apply andb_comm).
    apply map_ext_in. intros k Hk. apply IH. apply filter_In in Hk. tauto.
  - rewrite !map_map. apply map_ext_in. exact IH.
Qed.

Lemma prune_root_comm (c1 c2 : string) (t : xml) :
  prune_root c1 (prune_root c2 t) = prune_root c2 (prune_root c1 t).
Proof.
  destruct t as [g a x l ks]. simpl. f_equal. rewrite !map_map.
  apply map_ext. intros k. apply prune_comm.
Qed.

Lemma items_in_prune_pos (c : string) (k : xml) :
  x_tag k = "item" -> 1 <= items_in (prune c k).
Proof.
  destruct k as [g a x l ks]. simpl x_tag. intros ->. rewrite prune_eq.
  simpl. lia.
Qed.

(** The sums over the children of an element, kept or dropped. *)
Lemma kids_sum_le (c : string) (drop : bool) (ks : list xml) :
  (forall k, In k ks -> items_in (prune c k) + tally c k <= items_in k) ->
  list_sum (map items_in
              (map (prune c)
                 (if drop then filter (fun k => negb (doomed c k)) ks
                  else ks)))
  + ((if drop then length (filter (doomed c) ks) else 0)
     + list_sum (map (tally c) ks))
  <= list_sum (map items_in ks).
Proof.
  induction ks as [|k ks IH]; intros H; [destruct drop; simpl; lia|].
  assert (Hk := H k (or_introl eq_refl)).
  assert (Hks : forall k', In k' ks ->
                  items_in (prune c k') + tally c k' <= items_in k')
    by (intros k' Hk'; apply H; now right).
  specialize (IH Hks). destruct drop; simpl in *.
  - destruct (doomed c k) eqn:D; simpl in *.
    + assert (1 <= items_in (prune c k)).
      { apply items_in_prune_pos. unfold doomed in D.
        apply andb_true_iff in D. destruct D as [D _].
        now apply String.eqb_eq in D. }
      lia.
    + lia.
  - lia.
Qed.

Lemma items_in_prune (c : string) (t : xml) :
  items_in (prune c t) + tally c t <= items_in t.
Proof.
  induction t as [g a x l ks IH] using xml_ind.
  rewrite Forall_forall in IH. rewrite prune_eq.
  pose proof (kids_sum_le c (String.eqb g "channel") ks IH) as H.
  simpl. simpl in H. lia.
Qed.

Lemma items_in_prune_root (c : string) (t : xml) :
  items_in (prune_root c t) + tally_root c t <= items_in t.
Proof.
  destruct t as [g a x l ks]. unfold tally_root.
  pose proof (kids_sum_le c false ks
                (fun k _ => items_in_prune c k)) as H.
  simpl. simpl in H. lia.
Qed.

(** In a document without items inside items the sums are equal. *)
Lemma kids_sum_eq (c : string) (drop : bool) (ks : list xml) :
  (forall k, In k ks -> flat_items k = true /\
                        items_in (prune c k) + tally c k = items_in k) ->
  list_sum (map items_in
              (map (prune c)
                 (if drop then filter (fun k => negb (doomed c k)) ks
                  else ks)))
  + ((if drop then length (filter (doomed c) ks) else 0)
     + list_sum (map (tally c) ks))
  = list_sum (map items_in ks).
Proof.
  induction ks as [|k ks IH]; intros H; [destruct drop; simpl; lia|].
  destruct (H k (or_introl eq_refl)) as [Fk Hk].
  assert (Hks : forall k', In k' ks ->
                  flat_items k' = true /\
                  items_in (prune c k') + tally c k' = items_in k')
    by (intros k' Hk'; apply H; now right).
  specialize (IH Hks). destruct drop; simpl in *.
  - destruct (doomed c k) eqn:D; simpl in *.
    + assert (Hg : x_tag k = "item").
      { unfold doomed in D. apply andb_true_iff in D. destruct D as [D _].
        now apply String.eqb_eq in D. }
      assert (1 <= items_in (prune c k)) by now apply items_in_prune_pos.
      assert (items_in k = 1).
      { destruct k as [g a x l ks']. simpl in Hg. subst g. simpl in Fk.
        apply andb_true_iff in Fk. destruct Fk as [Fk _].
        apply Nat.eqb_eq in Fk. simpl. lia. }
      lia.
    + lia.
  - lia.
Qed.

Lemma flat_items_kid (g : string) a x l (ks : list xml) (k : xml) :
  flat_items (Node g a x l ks) = true -> In k ks -> flat_items k = true.
Proof.
  simpl. intros H Hk. apply andb_true_iff in H. destruct H as [_ H].
  rewrite forallb_forall in H. now apply H.
Qed.

Lemma items_in_prune_flat (c : string) (t : xml) :
  flat_items t = true -> items_in (prune c t) + tally c t = items_in t.
Proof.
  induction t as [g a x l ks IH] using xml_ind.
  rewrite Forall_forall in IH. intros F. rewrite prune_eq.
  assert (H : forall k, In k ks ->
                flat_items k = true /\
                items_in (prune c k) + tally c k = items_in k).
  { intros k Hk. pose proof (flat_items_kid g a x l ks k F Hk). auto. }
  pose proof (kids_sum_eq c (String.eqb g "channel") ks H) as E.
  simpl. simpl in E. lia.
Qed.

Lemma doomed_true (c : string) (k : xml) :
  doomed c k = true <->
  x_tag k = "item" /\
  exists s, first_kid sparkle_channel (x_kids k) = Some s /\
            x_text s = Some c.
Proof.
  unfold doomed, releases_on. rewrite andb_true_iff, String.eqb_eq.
  destruct (first_kid sparkle_channel (x_kids k)) as [s|].
  - rewrite text_is_true. split.
    + intros [Hg Hx]. split; [exact Hg|]. now exists s.
    + intros [Hg [s' [E Hx]]]. inversion E; subst s'. auto.
  - split; [intros [_ H]; discriminate|].
    intros [_ [s [E _]]]. discriminate.
Qed.

(** ** Reading a written file back *)

Lemma crlf_no_cr (s : string) : has_char CR s = false -> crlf s = s.
Proof.
  induction s as [|a s IH]; [reflexivity|]. simpl has_char.
  intros H. apply orb_false_iff in H. destruct H as [Ha Hs].
  cbn [crlf]. rewrite Ha. now rewrite IH.
Qed.

Lemma crlf_lf_free (s : string) : has_char LF (crlf s) = false -> crlf s = s.
Proof.
  induction s as [|a s IH]; [reflexivity|]. cbn [crlf].
  destruct (Ascii.eqb a CR) eqn:Ea.
  - destruct s as [|b s']; [discriminate|].
    destruct (Ascii.eqb b LF) eqn:Eb.
    + apply Ascii.eqb_eq in Eb. subst b. cbn [crlf].
      replace (Ascii.eqb LF CR) with false by reflexivity. discriminate.
    + discriminate.
  - simpl has_char. intros H. apply orb_false_iff in H.
    destruct H as [_ Hs]. now rewrite IH.
Qed.

Lemma reread_text_plain (x : option string) :
  plain_text x = true -> reread_text x = x.
Proof.
  destruct x as [[|a s]|]; simpl; intros H; try discriminate; [|reflexivity].
  apply negb_true_iff in H. f_equal. now apply (crlf_no_cr (String a s)).
Qed.

Lemma reread_plain (t : xml) : plain t = true -> reread t = t.
Proof.
  induction t as [g a x l ks IH] using xml_ind. rewrite Forall_forall in IH.
  simpl. intros H. apply andb_true_iff in H. destruct H as [H Hks].
  apply andb_true_iff in H. destruct H as [Hx Hl].
  rewrite forallb_forall in Hks.
  rewrite (reread_text_plain x Hx), (reread_text_plain l Hl). f_equal.
  rewrite <- (map_id ks) at 2. apply map_ext_in. intros k Hk.
  apply IH; auto.
Qed.

Lemma plain_prune (c : string) (t : xml) :
  plain t = true -> plain (prune c t) = true.
Proof.
  induction t as [g a x l ks IH] using xml_ind. rewrite Forall_forall in IH.
  rewrite prune_eq. simpl. intros H. apply andb_true_iff in H.
  destruct H as [H Hks]. rewrite H. simpl.
  rewrite forallb_forall in Hks. apply forallb_forall.
  intros k' Hk'. apply in_map_iff in Hk'. destruct Hk' as [k [<- Hk]].
  assert (In k ks)
    by (destruct (String.eqb g "channel"); [apply filter_In in Hk|]; tauto).
  apply IH; auto.
Qed.

Lemma plain_prune_root (c : string) (t : xml) :
  plain t = true -> plain (prune_root c t) = true.
Proof.
  destruct t as [g a x l ks]. simpl. intros H. apply andb_true_iff in H.
  destruct H as [H Hks]. rewrite H. simpl.
  rewrite forallb_forall in Hks. apply forallb_forall.
  intros k' Hk'. apply in_map_iff in Hk'. destruct Hk' as [k [<- Hk]].
  apply plain_prune. auto.
Qed.

Lemma reread_text_eq (c : string) (x : option string) :
  lf_free c = true -> reread_text x = Some c -> x = Some c.
Proof.
  unfold lf_free. intros Hc H. apply negb_true_iff in Hc.
  destruct x as [[|a s]|]; simpl in H; try discriminate.
  injection H as E. subst c. f_equal. symmetry.
  exact (crlf_lf_free (String a s) Hc).
Qed.

Lemma x_tag_reread (t : xml) : x_tag (reread t) = x_tag t.
Proof. now destruct t. Qed.

Lemma x_text_reread (t : xml) : x_text (reread t) = reread_text (x_text t).
Proof. now destruct t. Qed.

Lemma x_kids_reread (t : xml) : x_kids (reread t) = map reread (x_kids t).
Proof. now destruct t. Qed.

Lemma subtree_reread (t : xml) (p : addr) :
  subtree (reread t) p = option_map reread (subtree t p).
Proof.
  revert t; induction p as [|i p IH]; intros t; [reflexivity|].
  simpl. rewrite x_kids_reread, nth_error_map.
  destruct (nth_error (x_kids t) i) as [k|]; simpl; [apply IH | reflexivity].
Qed.

Lemma first_kid_reread (g : string) (ks : list xml) :
  first_kid g (map reread ks) = option_map reread (first_kid g ks).
Proof.
  induction ks as [|k ks IH]; simpl; [reflexivity|].
  rewrite x_tag_reread. now destruct (String.eqb (x_tag k) g).
Qed.

(** A channel name without line feed names no more releases in the file as
    it reads back than in the tree that was written. *)
Lemma no_first_release_reread (c : string) (d : xml) :
  lf_free c = true -> no_first_release c d -> no_first_release c (reread d).
Proof.
  intros Hc H p ch' it' s' Hp Hsub Hg Hit Htag Hs Hx.
  rewrite subtree_reread in Hsub.
  destruct (subtree d p) as [ch|] eqn:Hd; [|discriminate].
  simpl in Hsub. inversion Hsub; subst ch'; clear Hsub.
  rewrite x_tag_reread in Hg. rewrite x_kids_reread in Hit.
  apply in_map_iff in Hit. destruct Hit as [it [<- Hit]].
  rewrite x_tag_reread in Htag.
  rewrite x_kids_reread, first_kid_reread in Hs.
  destruct (first_kid sparkle_channel (x_kids it)) as [s|] eqn:Hf;
    [|discriminate].
  simpl in Hs. inversion Hs; subst s'; clear Hs.
  rewrite x_text_reread in Hx.
  apply (H p ch it s Hp Hd Hg Hit Htag Hf).
  now apply (reread_text_eq c).
Qed.




(** ** The process *)

Lemma tree_write_done (c : string) (t : xml) (py : runtime)
  (fs : filesystem) (path : string) (h : heap) :
  visited c t (channel_below t) h ->
  write_error py path = None ->
  height (prune_root c t) <= recursion_limit py ->
  tree_write py fs path h [] =
  (write_file fs path (Written (prune_root c t)), None).
Proof.
  intros V Hw Hh. unfold tree_write. rewrite Hw.
  now rewrite (dump_root c t h _ V Hh).
Qed.

Lemma tree_write_too_deep (c : string) (t : xml) (py : runtime)
  (fs : filesystem) (path : string) (h : heap) :
  visited c t (channel_below t) h ->
  write_error py path = None ->
  recursion_limit py < height (prune_root c t) ->
  tree_write py fs path h [] =
  (write_file fs path (Malformed (torn py)), Some RecursionError).
Proof.
  intros V Hw Hh. unfold tree_write. rewrite Hw.
  now rewrite (dump_root_too_deep c t h _ V Hh).
Qed.

(** The [try] block once the file is parsed: the loops end with the store
    of a pruned document and the count, and the write follows. *)
Lemma clean_appcast_body_parsed (path c : string) (w : world) (t : xml) :
  read_xml (files w) path = Ok t ->
  exists h,
    visited c t (channel_below t) h /\
    clean_appcast_body path c w =
    match tree_write (python w) (files w) path h [] with
    | (fs, Some e) => (mkWorld fs (stdout w) (stderr w) (python w), Some e)
    | (fs, None) =>
        match stdout_error (python w) c path with
        | Some msg =>
            (mkWorld fs (stdout w) (stderr w) (python w),
             Some (OtherError msg))
        | None =>
            (print_out (mkWorld fs (stdout w) (stderr w) (python w))
               (removed_message (tally_root c t) c path), None)
        end
    end.
Proof.
  intros Hr.
  destruct (remove_releases_ok c t (height t) (Nat.le_refl _)) as [h [Hl V]].
  exists h. split; [exact V|].
  unfold clean_appcast_body. rewrite Hr, Hl. reflexivity.
Qed.

(** A run that can write: it returns, the file holds what [tree.write] has
    written for the pruned tree, and the count is printed. *)
Lemma clean_appcast_ok (path c : string) (w : world) (t : xml) :
  read_xml (files w) path = Ok t ->
  write_error (python w) path = None ->
  height (prune_root c t) <= recursion_limit (python w) ->
  stdout_error (python w) c path = None ->
  clean_appcast path c w =
  (mkWorld (write_file (files w) path (Written (prune_root c t)))
           (stdout w ++ [removed_message (tally_root c t) c path])
           (stderr w) (python w), None).
Proof.
  intros Hr Hw Hh Hp.
  destruct (clean_appcast_body_parsed path c w t Hr) as [h [V Hb]].
  unfold clean_appcast. rewrite Hb.
  rewrite (tree_write_done c t _ _ _ _ V Hw Hh), Hp. reflexivity.
Qed.

(** A run that returns has been able to write. *)
Lemma clean_appcast_returned (path c : string) (w w' : world) :
  clean_appcast path c w = (w', None) ->
  exists t,
    read_xml (files w) path = Ok t /\
    write_error (python w) path = None /\
    height (prune_root c t) <= recursion_limit (python w) /\
    stdout_error (python w) c path = None /\
    w' = mkWorld (write_file (files w) path (Written (prune_root c t)))
                 (stdout w ++ [removed_message (tally_root c t) c path])
                 (stderr w) (python w).
Proof.
  intros H. destruct (read_xml (files w) path) as [t|e] eqn:Hr.
  - exists t. split; [reflexivity|].
    destruct (clean_appcast_body_parsed path c w t Hr) as [h [V Hb]].
    unfold clean_appcast in H. rewrite Hb in H.
    destruct (write_error (python w) path) as [e|] eqn:Hw.
    { unfold tree_write in H. rewrite Hw in H. destruct e; discriminate. }
    destruct (le_lt_dec (height (prune_root c t)) (recursion_limit (python w)))
      as [Hh|Hh].
    + rewrite (tree_write_done c t _ _ _ _ V Hw Hh) in H.
      destruct (stdout_error (python w) c path) as [msg|] eqn:Hp;
        [discriminate|].
      inversion H. auto.
    + rewrite (tree_write_too_deep c t _ _ _ _ V Hw Hh) in H. discriminate.
  - unfold clean_appcast, clean_appcast_body in H. rewrite Hr in H.
    destruct e; discriminate.
Qed.

Lemma clean_appcast_malformed (path c err : string) (w : world) :
  files w path = Some (Malformed err) ->
  clean_appcast path c w = (print_err w (parse_failed_message err), Some 1).
Proof.
  intros Hf. unfold clean_appcast, clean_appcast_body, read_xml.
  now rewrite Hf.
Qed.

Lemma clean_appcast_missing (path c : string) (w : world) :
  files w path = None ->
  clean_appcast path c w = (print_err w (not_found_message path), Some 1).
Proof.
  intros Hf. unfold clean_appcast, clean_appcast_body, read_xml.
  now rewrite Hf.
Qed.

Lemma main_three (argv : list string) (w : world) :
  length argv = 3 ->
  main argv w =
  match clean_appcast (nth 1 argv EmptyString) (nth 2 argv EmptyString) w with
  | (w', Some status) => (w', status)
  | (w', None) => (w', 0)
  end.
Proof. intros H. unfold main. now rewrite H. Qed.

Lemma main_usage (argv : list string) (w : world) :
  length argv <> 3 ->
  main argv w =
  (mkWorld (files w) (stdout w ++ usage) (stderr w) (python w), 1).
Proof.
  intros H. unfold main.
  now rewrite (proj2 (Nat.eqb_neq (length argv) 3) H).
Qed.

(** Every run with two arguments: the files other than the named one, the
    streams up to one line, and the status. *)
Lemma clean_appcast_frame (path c : string) (w : world) :
  (forall q, q <> path ->
             files (fst (clean_appcast path c w)) q = files w q) /\
  exists line,
    (snd (clean_appcast path c w) = None /\
     stdout (fst (clean_appcast path c w)) = stdout w ++ [line] /\
     stderr (fst (clean_appcast path c w)) = stderr w) \/
    (snd (clean_appcast path c w) = Some 1 /\
     stdout (fst (clean_appcast path c w)) = stdout w /\
     stderr (fst (clean_appcast path c w)) = stderr w ++ [line]).
Proof.
  destruct (read_xml (files w) path) as [t|e] eqn:Hr.
  - destruct (clean_appcast_body_parsed path c w t Hr) as [h [V Hb]].
    unfold clean_appcast. rewrite Hb. unfold tree_write.
    destruct (write_error (python w) path) as [e|].
    { split; [destruct e; reflexivity|].
      destruct e; simpl; eexists; right; eauto. }
    destruct (dump (recursion_limit (python w)) h []) as [d|e].
    + destruct (stdout_error (python w) c path) as [msg|]; simpl.
      * split; [intros q Hq; now apply write_file_other|].
        eexists. right. eauto.
      * split; [intros q Hq; now apply write_file_other|].
        eexists. left. eauto.
    + split.
      * intros q Hq. destruct e; simpl; now apply write_file_other.
      * destruct e; simpl; eexists; right; eauto.
  - unfold clean_appcast, clean_appcast_body. rewrite Hr.
    split; [destruct e; reflexivity|].
    destruct e; simpl; eexists; right; eauto.
Qed.

(** ** Elements that outlive the run *)

Lemma outlives_kept (c : string) :
  forall (q : addr) (t k : xml),
    subtree t q = Some k -> outlives c false t q = true ->
    exists q', subtree (prune c t) q' = Some (prune c k).
Proof.
  induction q as [|i q IH]; intros t k Hs Ho.
  - simpl in Hs. inversion Hs; subst. now exists [].
  - destruct t as [g a x l ks]. simpl in Hs, Ho.
    destruct (nth_error ks i) as [k1|] eqn:Hi; [|discriminate].
    apply andb_true_iff in Ho. destruct Ho as [Hd Ho].
    destruct (IH k1 k Hs Ho) as [q' Hq'].
    assert (Hin : In (prune c k1)
                    (map (prune c)
                       (if String.eqb g "channel"
                        then filter (fun k => negb (doomed c k)) ks else ks))).
    { apply in_map. apply nth_error_In in Hi.
      destruct (String.eqb g "channel"); [|exact Hi].
      apply filter_In. split; [exact Hi|]. exact Hd. }
    destruct (In_nth_error _ _ Hin) as [i' Hi'].
    exists (i' :: q'). rewrite prune_eq. simpl. now rewrite Hi'.
Qed.

Lemma outlives_kept_root (c : string) (q : addr) (t k : xml) :
  q <> [] -> subtree t q = Some k -> outlives c true t q = true ->
  exists q', subtree (prune_root c t) q' = Some (prune c k).
Proof.
  intros Hq Hs Ho. destruct q as [|i q]; [congruence|].
  destruct t as [g a x l ks]. simpl in Hs, Ho.
  destruct (nth_error ks i) as [k1|] eqn:Hi; [|discriminate].
  destruct (outlives_kept c q k1 k Hs Ho) as [q' Hq'].
  exists (i :: q'). simpl. rewrite nth_error_map, Hi. exact Hq'.
Qed.

Lemma outlives_snoc (c : string) :
  forall (p : addr) (top : bool) (t parent it : xml) (i : nat),
    subtree t p = Some parent -> nth_error (x_kids parent) i = Some it ->
    outlives c top t p = true -> doomed c it = false ->
    outlives c top t (p ++ [i]) = true.
Proof.
  induction p as [|j p IH]; intros top t parent it i Hp Hi Ho Hd.
  - simpl in Hp. inversion Hp; subst parent. simpl. rewrite Hi, Hd.
    now rewrite andb_false_r.
  - simpl in *. destruct (nth_error (x_kids t) j) as [k1|]; [|discriminate].
    apply andb_true_iff in Ho. destruct Ho as [Hd1 Ho]. rewrite Hd1. simpl.
    eapply IH; eauto.
Qed.

(** A child that is not doomed, of an element that outlives the run, is
    written. *)
Lemma kept_in_written (c : string) (t parent it : xml) (p : addr) (i : nat) :
  subtree t p = Some parent -> nth_error (x_kids parent) i = Some it ->
  outlives c true t p = true -> doomed c it = false ->
  exists q, subtree (prune_root c t) q = Some (prune c it).
Proof.
  intros Hp Hi Ho Hd. apply (outlives_kept_root c (p ++ [i])).
  - intros E. apply app_eq_nil in E. destruct E; discriminate.
  - eapply subtree_kid; eauto.
  - eapply outlives_snoc; eauto.
Qed.

(** ** Documents without a first release on a channel *)

Lemma prune_root_no_first (c : string) (t : xml) :
  no_first_release c (prune_root c t).
Proof.
  intros p ch it s Hp Hsub Hch Hit Hitem Hs Hx.
  pose proof (prune_root_clean c t p ch it Hp Hsub Hch Hit) as D.
  unfold doomed, releases_on in D.
  rewrite Hitem, Hs, (proj2 (text_is_true _ _) Hx) in D. discriminate.
Qed.

Lemma no_first_release_fixed (c : string) (d : xml) :
  no_first_release c d -> prune_root c d = d.
Proof.
  intros N. apply prune_root_nothing. intros p ch it Hp Hsub Hch Hit.
  destruct (doomed c it) eqn:D; [|reflexivity].
  apply doomed_true in D. destruct D as [Hitem [s [Hs Hx]]].
  exfalso. exact (N p ch it s Hp Hsub Hch Hit Hitem Hs Hx).
Qed.

Lemma no_first_release_prune (c c' : string) (d : xml) :
  no_first_release c d -> no_first_release c (prune_root c' d).
Proof.
  intros N. rewrite <- (no_first_release_fixed c d N), prune_root_comm.
  apply prune_root_no_first.
Qed.

(* ------------------------------------------------------------------ *)
(** * The claims of the specification *)

(** ** C1 *)

(** C1, as stated, fails on three documents. On [appcast_second] the only
    release has the [sparkle:channel] children [stable] and [edge]: the run
    for [edge] returns and writes the tree as it was, so an item under a
    channel still has a [sparkle:channel] child with the text [edge]. On
    [feed_at_root] the [channel] element is the root, which is not among
    its own descendants: its [edge] release stays as well. On [appcast_cr]
    the release has the channel [ed<CR>ge]: the run for [ed<LF>ge] leaves
    it, its carriage return is written as it is, and the written file
    reads back with a release on [ed<LF>ge]. *)
Lemma release_left_behind :
  (snd (clean_appcast "appcast.xml" "edge" (world_of appcast_second)) = None /\
   reads (fst (clean_appcast "appcast.xml" "edge" (world_of appcast_second)))
         "appcast.xml" = Some appcast_second /\
   ~ no_release_left "edge" appcast_second) /\
  (snd (clean_appcast "appcast.xml" "edge" (world_of feed_at_root)) = None /\
   reads (fst (clean_appcast "appcast.xml" "edge" (world_of feed_at_root)))
         "appcast.xml" = Some feed_at_root /\
   ~ no_release_left "edge" feed_at_root) /\
  (snd (clean_appcast "appcast.xml" edge_lf (world_of appcast_cr)) = None /\
   reads (fst (clean_appcast "appcast.xml" edge_lf (world_of appcast_cr)))
         "appcast.xml" = Some appcast_lf /\
   ~ no_first_release edge_lf appcast_lf).
Proof.
  repeat split; try (vm_compute; reflexivity); intros H.
  - apply (H [0] (element "channel"
                    [title; release [sparkle "stable"; sparkle "edge"]])
             (release [sparkle "stable"; sparkle "edge"]) (sparkle "edge"));
      try reflexivity; simpl; auto.
  - apply (H [] feed_at_root (release [sparkle "edge"]) (sparkle "edge"));
      try reflexivity; simpl; auto.
  - apply (H [0] (element "channel" [title; release [sparkle edge_lf]])
             (release [sparkle edge_lf]) (sparkle edge_lf));
      try reflexivity; [discriminate | simpl; auto].
Qed.

(** C1, amended: after a run of [clean_appcast] that returns, the file holds
    what [tree.write] has written for a tree in which no [item] child of a
    [channel] element below the root has [c] as the text of its first
    [sparkle:channel] child; when [c] holds no line feed, the same is true
    of the document that the file reads back as. *)
Theorem first_release_gone (path c : string) (w w' : world) :
  clean_appcast path c w = (w', None) ->
  exists d,
    files w' path = Some (Written d) /\
    no_first_release c d /\
    (lf_free c = true ->
     reads w' path = Some (reread d) /\ no_first_release c (reread d)).
Proof.
  intros H.
  destruct (clean_appcast_returned _ _ _ _ H) as [t [_ [_ [_ [_ ->]]]]].
  exists (prune_root c t).
  pose proof (prune_root_no_first c t) as N.
  simpl files. split; [apply write_file_same|]. split; [exact N|].
  intros Hc. split.
  - unfold reads. simpl files. now rewrite write_file_same.
  - now apply no_first_release_reread.
Qed.

Lemma first_release_gone_witness :
  clean_appcast "appcast.xml" "edge" (world_of appcast_mixed)
    = (mixed_after, None) /\
  exists d,
    files mixed_after "appcast.xml" = Some (Written d) /\
    no_first_release "edge" d /\
    (lf_free "edge" = true ->
     reads mixed_after "appcast.xml" = Some (reread d) /\
     no_first_release "edge" (reread d)).
Proof.
  assert (H : clean_appcast "appcast.xml" "edge" (world_of appcast_mixed)
              = (mixed_after, None)) by (vm_compute; reflexivity).
  split; [exact H|].
  exact (first_release_gone "appcast.xml" "edge" (world_of appcast_mixed)
           mixed_after H).
Defined.

(** ** C2 *)




(** ** C3 *)





Lemma not_doomed_other (c : string) (it s : xml) :
  first_kid sparkle_channel (x_kids it) = Some s -> x_text s <> Some c ->
  doomed c it = false.
Proof.
  intros Hs Hx. unfold doomed, releases_on. rewrite Hs.
  destruct (text_is (x_text s) c) eqn:E.
  - apply text_is_true in E. contradiction.
  - apply andb_false_r.
Qed.

Lemma not_doomed_untagged (c : string) (it : xml) :
  first_kid sparkle_channel (x_kids it) = None -> doomed c it = false.
Proof.
  intros Hs. unfold doomed, releases_on. rewrite Hs. apply andb_false_r.
Qed.

(** What a run that returns has written holds every child that is not
    doomed of an element that outlives the run. *)
Lemma kept_in_file (path c : string) (w w' : world) (t parent it : xml)
  (p : addr) (i : nat) :
  read_xml (files w) path = Ok t ->
  clean_appcast path c w = (w', None) ->
  subtree t p = Some parent -> nth_error (x_kids parent) i = Some it ->
  outlives c true t p = true -> doomed c it = false ->
  exists d q,
    files w' path = Some (Written d) /\
    subtree d q = Some (prune c it) /\
    x_tag (prune c it) = x_tag it /\
    first_kid sparkle_channel (x_kids (prune c it))
      = option_map (prune c) (first_kid sparkle_channel (x_kids it)) /\
    (paths "channel" it = [] -> prune c it = it).
Proof.
  intros Hr H Hp Hi Ho Hd.
  destruct (clean_appcast_returned _ _ _ _ H) as [t' [Hr' [_ [_ [_ ->]]]]].
  rewrite Hr in Hr'. inversion Hr'; subst t'.
  destruct (kept_in_written c t parent it p i Hp Hi Ho Hd) as [q Hq].
  exists (prune_root c t), q. simpl files.
  split; [apply write_file_same|]. split; [exact Hq|].
  split; [apply x_tag_prune|]. split.
  - destruct it as [g a x l ks]. rewrite prune_eq. simpl x_kids.
    destruct (String.eqb g "channel").
    + clear. induction ks as [|k ks IH]; [reflexivity|]. simpl.
      destruct (doomed c k) eqn:D; simpl.
      * unfold doomed in D. apply andb_true_iff in D. destruct D as [D _].
        apply String.eqb_eq in D. rewrite D. simpl. exact IH.
      * rewrite x_tag_prune.
        destruct (String.eqb (x_tag k) sparkle_channel); [reflexivity|exact IH].
    + clear. induction ks as [|k ks IH]; [reflexivity|]. simpl.
      rewrite x_tag_prune.
      destruct (String.eqb (x_tag k) sparkle_channel); [reflexivity|exact IH].
  - apply prune_no_channel.
Qed.

(** ** C4 *)

(** C4, as stated, fails on [appcast_nested]: its release on [stable] lies
    in a feed inside a release on [edge], and goes with it: the written
    document has no release on [stable]. It fails on [appcast_holding] for
    the word unchanged: the release on [stable] holds a feed whose release
    on [edge] is removed, so the only item written differs from the item
    read. *)
Lemma stable_release_lost :
  (any_release "stable" appcast_nested = true /\
   snd (clean_appcast "appcast.xml" "edge" (world_of appcast_nested)) = None /\
   files (fst (clean_appcast "appcast.xml" "edge" (world_of appcast_nested)))
         "appcast.xml" = Some (Written (appcast [release [sparkle "beta"]])) /\
   any_release "stable" (appcast [release [sparkle "beta"]]) = false) /\
  (subtree appcast_holding [0; 1]
     = Some (release [sparkle "stable";
                      element "channel" [release [sparkle "edge"]]]) /\
   files (fst (clean_appcast "appcast.xml" "edge" (world_of appcast_holding)))
         "appcast.xml" = Some (Written appcast_holding_cleaned) /\
   items_in appcast_holding_cleaned = 1 /\
   subtree appcast_holding_cleaned [0; 1]
     = Some (release [sparkle "stable"; element "channel" []]) /\
   release [sparkle "stable"; element "channel" []]
     <> release [sparkle "stable";
                 element "channel" [release [sparkle "edge"]]]).
Proof.
  repeat split; try (vm_compute; reflexivity). discriminate.
Qed.

(** C4, amended: an [item] whose first [sparkle:channel] child has another
    text than [c], child of an element that is neither removed by the run
    nor inside a removed item ([outlives]): after a run that returns the
    written document holds the item, with its tag and its first
    [sparkle:channel] child, less the releases on [c] of the [channel]
    elements inside it ([prune]); an item without [channel] elements inside
    is written exactly as it was read. *)
Theorem other_channel_kept (path c : string) (w w' : world) (t parent it s : xml)
  (p : addr) (i : nat) :
  read_xml (files w) path = Ok t ->
  clean_appcast path c w = (w', None) ->
  subtree t p = Some parent ->
  nth_error (x_kids parent) i = Some it ->
  outlives c true t p = true ->
  x_tag it = "item" ->
  first_kid sparkle_channel (x_kids it) = Some s ->
  x_text s <> Some c ->
  exists d q,
    files w' path = Some (Written d) /\
    subtree d q = Some (prune c it) /\
    x_tag (prune c it) = "item" /\
    first_kid sparkle_channel (x_kids (prune c it)) = Some (prune c s) /\
    x_text (prune c s) = x_text s /\
    (paths "channel" it = [] -> subtree d q = Some it).
Proof.
  intros Hr H Hp Hi Ho Hg Hs Hx.
  destruct (kept_in_file path c w w' t parent it p i Hr H Hp Hi Ho
              (not_doomed_other c it s Hs Hx))
    as [d [q [Hf [Hq [Ht [Hk Hn]]]]]].
  exists d, q. split; [exact Hf|]. split; [exact Hq|].
  split; [congruence|]. split; [now rewrite Hk, Hs|].
  split; [apply x_text_prune|].
  intros E. rewrite (Hn E) in Hq. exact Hq.
Qed.

Lemma other_channel_kept_witness :
  x_text (sparkle "stable") <> Some "edge" /\
  exists d q,
    files mixed_after "appcast.xml" = Some (Written d) /\
    subtree d q = Some (prune "edge" (release [sparkle "stable"])) /\
    x_tag (prune "edge" (release [sparkle "stable"])) = "item" /\
    first_kid sparkle_channel
      (x_kids (prune "edge" (release [sparkle "stable"])))
      = Some (prune "edge" (sparkle "stable")) /\
    x_text (prune "edge" (sparkle "stable")) = x_text (sparkle "stable") /\
    (paths "channel" (release [sparkle "stable"]) = [] ->
     subtree d q = Some (release [sparkle "stable"])).
Proof.
  assert (Hx : x_text (sparkle "stable") <> Some "edge") by discriminate.
  split; [exact Hx|].
  apply (other_channel_kept "appcast.xml" "edge" (world_of appcast_mixed)
           mixed_after appcast_mixed
           (element "channel"
              [title; release [sparkle "stable"]; release [sparkle "edge"];
               release [sparkle "edge"]; release [title]])
           (release [sparkle "stable"]) (sparkle "stable") [0] 1);
    try (vm_compute; reflexivity).
  exact Hx.
Defined.

(** ** C5 *)

(** C5, as stated, fails on [appcast_nested_untagged]: its release without
    [sparkle:channel] child lies in a feed inside a release on [edge] and
    goes with it: the written document has no item at all. *)
Lemma untagged_release_lost :
  any_untagged appcast_nested_untagged = true /\
  snd (clean_appcast "appcast.xml" "edge" (world_of appcast_nested_untagged))
    = None /\
  files (fst (clean_appcast "appcast.xml" "edge"
                (world_of appcast_nested_untagged))) "appcast.xml"
    = Some (Written (appcast [])) /\
  reads (fst (clean_appcast "appcast.xml" "edge"
                (world_of appcast_nested_untagged))) "appcast.xml"
    = Some (appcast []) /\
  any_untagged (appcast []) = false /\
  items_in (appcast []) = 0.
Proof. repeat split; vm_compute; reflexivity. Qed.

(** C5, amended: an [item] without a [sparkle:channel] child, child of an
    element that is neither removed by the run nor inside a removed item
    ([outlives]): after a run that returns, for whatever channel name, the
    written document holds the item, still without a [sparkle:channel]
    child, less the releases on [c] of the [channel] elements inside it; an
    item without [channel] elements inside is written exactly as it was
    read. *)
Theorem untagged_kept (path c : string) (w w' : world) (t parent it : xml)
  (p : addr) (i : nat) :
  read_xml (files w) path = Ok t ->
  clean_appcast path c w = (w', None) ->
  subtree t p = Some parent ->
  nth_error (x_kids parent) i = Some it ->
  outlives c true t p = true ->
  x_tag it = "item" ->
  first_kid sparkle_channel (x_kids it) = None ->
  exists d q,
    files w' path = Some (Written d) /\
    subtree d q = Some (prune c it) /\
    x_tag (prune c it) = "item" /\
    first_kid sparkle_channel (x_kids (prune c it)) = None /\
    (paths "channel" it = [] -> subtree d q = Some it).
Proof.
  intros Hr H Hp Hi Ho Hg Hs.
  destruct (kept_in_file path c w w' t parent it p i Hr H Hp Hi Ho
              (not_doomed_untagged c it Hs))
    as [d [q [Hf [Hq [Ht [Hk Hn]]]]]].
  exists d, q. split; [exact Hf|]. split; [exact Hq|].
  split; [congruence|]. split; [now rewrite Hk, Hs|].
  intros E. rewrite (Hn E) in Hq. exact Hq.
Qed.

Lemma untagged_kept_witness :
  first_kid sparkle_channel (x_kids (release [title])) = None /\
  exists d q,
    files mixed_after "appcast.xml" = Some (Written d) /\
    subtree d q = Some (prune "edge" (release [title])) /\
    x_tag (prune "edge" (release [title])) = "item" /\
    first_kid sparkle_channel (x_kids (prune "edge" (release [title])))
      = None /\
    (paths "channel" (release [title]) = [] ->
     subtree d q = Some (release [title])).
Proof.
  split; [reflexivity|].
  apply (untagged_kept "appcast.xml" "edge" (world_of appcast_mixed)
           mixed_after appcast_mixed
           (element "channel"
              [title; release [sparkle "stable"]; release [sparkle "edge"];
               release [sparkle "edge"]; release [title]])
           (release [title]) [0] 4);
    vm_compute; reflexivity.
Defined.

(** ** C6 *)

(** C6, as stated, fails on [appcast_cr], whose release is on [ed<CR>ge]:
    the first run for [ed<LF>ge] reports 0 and writes the carriage return as
    it is; the second run reads a line feed in its place, reports 1 and
    writes another file. With the channel [edge] both runs report 0, and
    the second still writes another tree than the first. *)
Lemma second_run_removes :
  (snd (clean_appcast "appcast.xml" edge_lf (world_of appcast_cr)) = None /\
   stdout (fst (clean_appcast "appcast.xml" edge_lf (world_of appcast_cr)))
     = [removed_message 0 edge_lf "appcast.xml"] /\
   snd (clean_appcast "appcast.xml" edge_lf
          (fst (clean_appcast "appcast.xml" edge_lf (world_of appcast_cr))))
     = None /\
   stdout (fst (clean_appcast "appcast.xml" edge_lf
          (fst (clean_appcast "appcast.xml" edge_lf (world_of appcast_cr)))))
     = [removed_message 0 edge_lf "appcast.xml";
        removed_message 1 edge_lf "appcast.xml"] /\
   files (fst (clean_appcast "appcast.xml" edge_lf (world_of appcast_cr)))
         "appcast.xml" = Some (Written appcast_cr) /\
   files (fst (clean_appcast "appcast.xml" edge_lf
          (fst (clean_appcast "appcast.xml" edge_lf (world_of appcast_cr)))))
         "appcast.xml" = Some (Written (appcast []))) /\
  (files (fst (clean_appcast "appcast.xml" "edge" (world_of appcast_cr)))
         "appcast.xml" = Some (Written appcast_cr) /\
   files (fst (clean_appcast "appcast.xml" "edge"
          (fst (clean_appcast "appcast.xml" "edge" (world_of appcast_cr)))))
         "appcast.xml" = Some (Written appcast_lf) /\
   appcast_lf <> appcast_cr).
Proof.
  repeat split; try (vm_compute; reflexivity). discriminate.
Qed.

(** C6, amended: on a document whose texts hold no carriage return and
    whose elements have no empty text, a run that returns can be followed
    by a second run with the same arguments, which returns as well, reports
    0 removals and leaves every file as the first run left it; the error
    stream is untouched. *)
Theorem clean_appcast_twice (path c : string) (w w1 : world) (t : xml) :
  read_xml (files w) path = Ok t ->
  plain t = true ->
  clean_appcast path c w = (w1, None) ->
  exists w2,
    clean_appcast path c w1 = (w2, None) /\
    stdout w2 = stdout w1 ++ [removed_message 0 c path] /\
    stderr w2 = stderr w1 /\
    (forall q, files w2 q = files w1 q).
Proof.
  intros Hr Hpl H.
  destruct (clean_appcast_returned _ _ _ _ H)
    as [t' [Hr' [Hw [Hh [Hp ->]]]]].
  rewrite Hr in Hr'. inversion Hr'; subst t'.
  assert (Hpp : plain (prune_root c t) = true) by now apply plain_prune_root.
  assert (R : read_xml (write_file (files w) path (Written (prune_root c t)))
                path = Ok (prune_root c t)).
  { unfold read_xml. rewrite write_file_same. now rewrite reread_plain. }
  eexists. split.
  - apply clean_appcast_ok with (t := prune_root c t); simpl; auto.
    now rewrite prune_root_idem.
  - simpl. rewrite prune_root_idem, tally_root_prune.
    repeat split. intros q. unfold write_file.
    destruct (String.eqb q path); reflexivity.
Qed.

Lemma clean_appcast_twice_witness :
  plain appcast_mixed = true /\
  exists w2,
    clean_appcast "appcast.xml" "edge" mixed_after = (w2, None) /\
    stdout w2 = stdout mixed_after
                ++ [removed_message 0 "edge" "appcast.xml"] /\
    stderr w2 = stderr mixed_after /\
    (forall q, files w2 q = files mixed_after q).
Proof.
  split; [reflexivity|].
  apply (clean_appcast_twice "appcast.xml" "edge" (world_of appcast_mixed)
           mixed_after appcast_mixed); vm_compute; reflexivity.
Defined.

(** ** C7 *)




(** ** C8 *)

(** C8: when the path names no file, the program prints
    [✗ File not found: <path>] to the error stream and ends with status 1;
    nothing is printed to standard output and no file is created or
    changed. *)
Theorem missing_file (prog path c : string) (w : world) :
  files w path = None ->
  main [prog; path; c] w =
  (mkWorld (files w) (stdout w)
           (stderr w ++ [("✗ File not found: " ++ path)%string])
           (python w), 1).
Proof.
  intros Hf. unfold main. simpl.
  unfold clean_appcast, clean_appcast_body, read_xml. now rewrite Hf.
Qed.

Lemma missing_file_witness :
  files empty_world "appcast.xml" = None /\
  main ["clean_appcast.py"; "appcast.xml"; "edge"] empty_world =
  (mkWorld (files empty_world) (stdout empty_world)
           (stderr empty_world ++ ["✗ File not found: appcast.xml"])
           (python empty_world), 1).
Proof.
  split; [reflexivity|].
  apply (missing_file "clean_appcast.py" "appcast.xml" "edge" empty_world).
  reflexivity.
Defined.

(** ** C9 *)

(** C9: with any number of positional arguments other than two, the program
    prints the two usage lines to standard output and ends with status 1;
    the files and the error stream are as before. *)
Theorem wrong_argument_count (prog : string) (args : list string) (w : world) :
  length args <> 2 ->
  main (prog :: args) w =
  (mkWorld (files w)
           (stdout w ++
            ["Usage: python clean_appcast.py <appcast_file> <channel_name>";
             "Example: python clean_appcast.py appcast.xml edge"])
           (stderr w) (python w), 1).
Proof.
  intros H. unfold main. simpl length.
  destruct (Nat.eqb_spec (S (length args)) 3) as [E|_]; [lia|reflexivity].
Qed.

Lemma wrong_argument_count_witness :
  length ["appcast.xml"] <> 2 /\
  main ["clean_appcast.py"; "appcast.xml"] (world_of appcast_mixed) =
  (mkWorld (files (world_of appcast_mixed))
           (stdout (world_of appcast_mixed) ++
            ["Usage: python clean_appcast.py <appcast_file> <channel_name>";
             "Example: python clean_appcast.py appcast.xml edge"])
           (stderr (world_of appcast_mixed))
           (python (world_of appcast_mixed)), 1).
Proof.
  assert (H : length ["appcast.xml"] <> 2) by (simpl; lia).
  split; [exact H|].
  exact (wrong_argument_count "clean_appcast.py" ["appcast.xml"]
           (world_of appcast_mixed) H).
Defined.

(** ** C10 *)

(** C10: the first [sparkle:channel] child [s] of an item decides alone:
    with the children [pre ++ s :: rest] of the item, [pre] holding no
    [sparkle:channel] element, the item stays a child of its parent unless
    the parent is a [channel] below the root, the item is tagged [item] and
    the text of [s] is [c], whatever [rest] holds. In particular an item
    whose [s] has no text stays, for every [c]. *)
Theorem first_sparkle_channel_decides (t : xml) (c : string) (p : addr)
  (i : nat) (parent it s : xml) (pre rest : list xml) :
  subtree t p = Some parent ->
  nth_error (x_kids parent) i = Some it ->
  x_kids it = pre ++ s :: rest ->
  (forall k, In k pre -> x_tag k <> sparkle_channel) ->
  x_tag s = sparkle_channel ->
  exists h' e',
    store_after t c = Ok h' /\
    h' p = Some e' /\
    (In (p ++ [i]) (children e') <->
     ~ (channel_below t p = true /\ x_tag it = "item" /\ x_text s = Some c)) /\
    (x_text s = None -> In (p ++ [i]) (children e')).
Proof.
  intros Hp Hi Hk Hpre Hs.
  destruct (store_after_ok c t) as [h' [Hh V]].
  destruct (kept_child c t h' p i parent it V Hp Hi) as [e' [He' Hin]].
  assert (D : doomed c it = true <-> x_tag it = "item" /\ x_text s = Some c).
  { unfold doomed, releases_on.
    rewrite Hk, (first_kid_app _ _ _ _ Hpre Hs), andb_true_iff.
    now rewrite String.eqb_eq, text_is_true. }
  exists h', e'. split; [exact Hh|]. split; [exact He'|]. split.
  - rewrite Hin, D. tauto.
  - intros Hx. apply Hin. rewrite D, Hx. intros [_ [_ E]]. discriminate.
Qed.

Lemma first_sparkle_channel_decides_witness :
  exists h' e',
    store_after appcast_empty_first "edge" = Ok h' /\
    h' [0] = Some e' /\
    (In [0; 1] (children e') <->
     ~ (channel_below appcast_empty_first [0] = true /\
        x_tag (release [title; Node sparkle_channel [] None None [];
                        sparkle "edge"]) = "item" /\
        x_text (Node sparkle_channel [] None None []) = Some "edge")) /\
    (x_text (Node sparkle_channel [] None None []) = None ->
     In [0; 1] (children e')).
Proof.
  apply (first_sparkle_channel_decides appcast_empty_first "edge" [0] 1
           (element "channel"
              [title; release [title; Node sparkle_channel [] None None [];
                               sparkle "edge"]])
           (release [title; Node sparkle_channel [] None None [];
                     sparkle "edge"])
           (Node sparkle_channel [] None None [])
           [title] [sparkle "edge"]); try reflexivity.
  intros k [<-|[]]. discriminate.
Defined.

(* ------------------------------------------------------------------ *)
(** * Further properties of the program *)

(** ** The outcomes of a run *)

(** X1: a file that is not well-formed XML: the program prints
    [✗ Failed to parse XML: <details>] to the error stream and ends with
    status 1; standard output and every file are as before. *)
Theorem parse_failure (prog path c err : string) (w : world) :
  files w path = Some (Malformed err) ->
  main [prog; path; c] w =
  (mkWorld (files w) (stdout w)
           (stderr w ++ [("✗ Failed to parse XML: " ++ err)%string])
           (python w), 1).
Proof.
  intros Hf. rewrite main_three by reflexivity. simpl nth.
  now rewrite (clean_appcast_malformed _ _ _ _ Hf).
Qed.

Lemma parse_failure_witness :
  files broken_world "appcast.xml"
    = Some (Malformed "no element found: line 1, column 0") /\
  main ["clean_appcast.py"; "appcast.xml"; "edge"] broken_world =
  (mkWorld (files broken_world) (stdout broken_world)
     (stderr broken_world
      ++ ["✗ Failed to parse XML: no element found: line 1, column 0"])
     (python broken_world), 1).
Proof.
  split; [reflexivity|].
  apply (parse_failure "clean_appcast.py" "appcast.xml" "edge"
           "no element found: line 1, column 0" broken_world).
  reflexivity.
Defined.


(** X3: the only file that a run can change is the one named by its first
    argument, and a run changes no file when it gets another number of
    arguments than two, when the file cannot be parsed, or when the file
    cannot be opened for writing. *)
Theorem only_named_file_changes (argv : list string) (w : world) (q : string) :
  files (fst (main argv w)) q <> files w q ->
  q = nth 1 argv EmptyString /\
  length argv = 3 /\
  (exists t, read_xml (files w) (nth 1 argv EmptyString) = Ok t) /\
  write_error (python w) (nth 1 argv EmptyString) = None.
Proof.
  intros H. destruct (Nat.eq_dec (length argv) 3) as [E|E].
  - rewrite (main_three _ _ E) in H.
    set (path := nth 1 argv EmptyString) in *.
    set (c := nth 2 argv EmptyString) in *.
    assert (H' : files (fst (clean_appcast path c w)) q <> files w q).
    { destruct (clean_appcast path c w) as [w' [s|]]; exact H. }
    clear H. split.
    { destruct (string_dec q path) as [Hq|Hq]; [exact Hq|].
      exfalso. apply H'. now apply (proj1 (clean_appcast_frame path c w)). }
    split; [exact E|].
    destruct (read_xml (files w) path) as [t|e] eqn:Hr.
    + split; [now exists t|].
      destruct (write_error (python w) path) as [e|] eqn:Hw; [|reflexivity].
      exfalso. apply H'.
      destruct (clean_appcast_body_parsed path c w t Hr) as [h [V Hb]].
      unfold clean_appcast. rewrite Hb. unfold tree_write. rewrite Hw.
      destruct e; reflexivity.
    + exfalso. apply H'. unfold clean_appcast, clean_appcast_body.
      rewrite Hr. destruct e; reflexivity.
  - rewrite (main_usage _ _ E) in H. simpl in H. now contradiction H.
Qed.

Lemma only_named_file_changes_witness :
  "appcast.xml" = nth 1 ["clean_appcast.py"; "appcast.xml"; "edge"] EmptyString
  /\ length ["clean_appcast.py"; "appcast.xml"; "edge"] = 3
  /\ (exists t, read_xml (files (world_of appcast_mixed))
                  (nth 1 ["clean_appcast.py"; "appcast.xml"; "edge"]
                       EmptyString) = Ok t)
  /\ write_error (python (world_of appcast_mixed))
       (nth 1 ["clean_appcast.py"; "appcast.xml"; "edge"] EmptyString) = None.
Proof.
  apply (only_named_file_changes
           ["clean_appcast.py"; "appcast.xml"; "edge"]
           (world_of appcast_mixed) "appcast.xml").
  vm_compute. intros H. discriminate H.
Defined.

(** X4: a run with two positional arguments prints exactly one line: to
    standard output when it ends with status 0, to the error stream when it
    ends with status 1; the other stream is as before. *)
Theorem one_line_printed (argv : list string) (w : world) :
  length argv = 3 ->
  exists line,
    (snd (main argv w) = 0 /\
     stdout (fst (main argv w)) = stdout w ++ [line] /\
     stderr (fst (main argv w)) = stderr w) \/
    (snd (main argv w) = 1 /\
     stdout (fst (main argv w)) = stdout w /\
     stderr (fst (main argv w)) = stderr w ++ [line]).
Proof.
  intros E. rewrite (main_three _ _ E).
  destruct (clean_appcast_frame (nth 1 argv EmptyString)
              (nth 2 argv EmptyString) w) as [_ [line F]].
  exists line.
  destruct (clean_appcast (nth 1 argv EmptyString)
              (nth 2 argv EmptyString) w) as [w' [s|]]; simpl in *.
  - right. destruct F as [[F _]|[F1 F2]]; [discriminate|].
    inversion F1. auto.
  - left. destruct F as [[_ F]|[F _]]; [|discriminate]. auto.
Qed.

Lemma one_line_printed_witness :
  exists line,
    (snd (main ["clean_appcast.py"; "appcast.xml"; "edge"] broken_world) = 0 /\
     stdout (fst (main ["clean_appcast.py"; "appcast.xml"; "edge"]
                       broken_world)) = stdout broken_world ++ [line] /\
     stderr (fst (main ["clean_appcast.py"; "appcast.xml"; "edge"]
                       broken_world)) = stderr broken_world) \/
    (snd (main ["clean_appcast.py"; "appcast.xml"; "edge"] broken_world) = 1 /\
     stdout (fst (main ["clean_appcast.py"; "appcast.xml"; "edge"]
                       broken_world)) = stdout broken_world /\
     stderr (fst (main ["clean_appcast.py"; "appcast.xml"; "edge"]
                       broken_world)) = stderr broken_world ++ [line]).
Proof.
  apply (one_line_printed ["clean_appcast.py"; "appcast.xml"; "edge"]
           broken_world). reflexivity.
Defined.

(** X13: when the tree left by the loops is taller than the serialiser of
    [tree.write] can follow, the run ends with status 1 and the line
    [✗ Unexpected error: maximum recursion depth exceeded while calling a
    Python object] on the error stream; nothing is printed to standard
    output, and the file, already opened for writing, is left cut short. *)
Theorem too_deep_to_write (prog path c : string) (w : world) (t : xml) :
  read_xml (files w) path = Ok t ->
  write_error (python w) path = None ->
  recursion_limit (python w) < height (prune_root c t) ->
  main [prog; path; c] w =
  (mkWorld (write_file (files w) path (Malformed (torn (python w))))
           (stdout w)
           (stderr w ++ ["✗ Unexpected error: maximum recursion depth exceeded while calling a Python object"])
           (python w), 1).
Proof.
  intros Hr Hw Hh. rewrite main_three by reflexivity. simpl nth.
  destruct (clean_appcast_body_parsed path c w t Hr) as [h [V Hb]].
  unfold clean_appcast. rewrite Hb.
  now rewrite (tree_write_too_deep c t _ _ _ _ V Hw Hh).
Qed.

Lemma too_deep_to_write_witness :
  recursion_limit (python (world_of appcast_deep))
    < height (prune_root "edge" appcast_deep) /\
  main ["clean_appcast.py"; "appcast.xml"; "edge"] (world_of appcast_deep) =
  (mkWorld (write_file (files (world_of appcast_deep)) "appcast.xml"
              (Malformed (torn (python (world_of appcast_deep)))))
           (stdout (world_of appcast_deep))
           (stderr (world_of appcast_deep) ++ ["✗ Unexpected error: maximum recursion depth exceeded while calling a Python object"])
           (python (world_of appcast_deep)), 1).
Proof.
  assert (H : recursion_limit (python (world_of appcast_deep))
              < height (prune_root "edge" appcast_deep))
    by (apply Nat.ltb_lt; vm_compute; reflexivity).
  split; [exact H|].
  apply (too_deep_to_write "clean_appcast.py" "appcast.xml" "edge"
           (world_of appcast_deep) appcast_deep); [reflexivity|reflexivity|].
  exact H.
Defined.

(** X14: when the line of line 48 cannot be printed, the run ends with
    status 1 and [✗ Unexpected error: <details>] on the error stream,
    after the file has been written: the releases are removed although the
    run fails. *)
Theorem print_fails_after_write (prog path c msg : string) (w : world)
  (t : xml) :
  read_xml (files w) path = Ok t ->
  write_error (python w) path = None ->
  height (prune_root c t) <= recursion_limit (python w) ->
  stdout_error (python w) c path = Some msg ->
  main [prog; path; c] w =
  (mkWorld (write_file (files w) path (Written (prune_root c t)))
           (stdout w)
           (stderr w ++ [("✗ Unexpected error: " ++ msg)%string])
           (python w), 1).
Proof.
  intros Hr Hw Hh Hp. rewrite main_three by reflexivity. simpl nth.
  destruct (clean_appcast_body_parsed path c w t Hr) as [h [V Hb]].
  unfold clean_appcast. rewrite Hb.
  rewrite (tree_write_done c t _ _ _ _ V Hw Hh). now rewrite Hp.
Qed.

Lemma print_fails_after_write_witness :
  stdout_error (python (ascii_world appcast_mixed)) "edge" "appcast.xml"
    = Some "'ascii' codec can't encode character '\u2713' in position 0: ordinal not in range(128)" /\
  main ["clean_appcast.py"; "appcast.xml"; "edge"] (ascii_world appcast_mixed) =
  (mkWorld (write_file (files (ascii_world appcast_mixed)) "appcast.xml"
              (Written (prune_root "edge" appcast_mixed)))
           (stdout (ascii_world appcast_mixed))
           (stderr (ascii_world appcast_mixed)
            ++ [("✗ Unexpected error: " ++ "'ascii' codec can't encode character '\u2713' in position 0: ordinal not in range(128)")%string])
           (python (ascii_world appcast_mixed)), 1).
Proof.
  split; [reflexivity|].
  apply (print_fails_after_write "clean_appcast.py" "appcast.xml" "edge"
           "'ascii' codec can't encode character '\u2713' in position 0: ordinal not in range(128)"
           (ascii_world appcast_mixed) appcast_mixed); try reflexivity.
  apply Nat.leb_le. reflexivity.
Defined.

(** ** The count and the written tree *)

(** X6: in a run that returns, the reported count is 0 exactly when the
    element tree that is written is the element tree that was parsed. *)
Theorem zero_iff_unchanged (path c : string) (w w' : world) (t : xml) :
  read_xml (files w) path = Ok t ->
  clean_appcast path c w = (w', None) ->
  exists d n,
    files w' path = Some (Written d) /\
    stdout w' = stdout w ++ [removed_message n c path] /\
    (n = 0 <-> d = t).
Proof.
  intros Hr H.
  destruct (clean_appcast_returned _ _ _ _ H) as [t' [Hr' [_ [_ [_ ->]]]]].
  rewrite Hr in Hr'. inversion Hr'; subst t'.
  exists (prune_root c t), (tally_root c t). simpl.
  split; [apply write_file_same|]. split; [reflexivity|]. split.
  - apply tally_root_zero_unchanged.
  - intros E. rewrite <- E at 1. apply tally_root_prune.
Qed.

Lemma zero_iff_unchanged_witness :
  clean_appcast "appcast.xml" "edge" (world_of appcast_mixed)
    = (mixed_after, None) /\
  exists d n,
    files mixed_after "appcast.xml" = Some (Written d) /\
    stdout mixed_after
      = stdout (world_of appcast_mixed)
        ++ [removed_message n "edge" "appcast.xml"] /\
    (n = 0 <-> d = appcast_mixed).
Proof.
  assert (H : clean_appcast "appcast.xml" "edge" (world_of appcast_mixed)
              = (mixed_after, None)) by (vm_compute; reflexivity).
  split; [exact H|].
  apply (zero_iff_unchanged "appcast.xml" "edge" (world_of appcast_mixed)
           mixed_after appcast_mixed); [reflexivity | exact H].
Defined.

(** X8: in a run that returns, the reported count is at most the number of
    [item] elements by which the written tree is smaller than the parsed
    one. *)
Theorem count_at_most_missing (path c : string) (w w' : world) (t : xml) :
  read_xml (files w) path = Ok t ->
  clean_appcast path c w = (w', None) ->
  exists d n,
    files w' path = Some (Written d) /\
    stdout w' = stdout w ++ [removed_message n c path] /\
    items_in d + n <= items_in t.
Proof.
  intros Hr H.
  destruct (clean_appcast_returned _ _ _ _ H) as [t' [Hr' [_ [_ [_ ->]]]]].
  rewrite Hr in Hr'. inversion Hr'; subst t'.
  exists (prune_root c t), (tally_root c t). simpl.
  split; [apply write_file_same|]. split; [reflexivity|].
  apply items_in_prune_root.
Qed.

Lemma count_at_most_missing_witness :
  clean_appcast "appcast.xml" "edge" (world_of appcast_nested)
    = (fst (clean_appcast "appcast.xml" "edge" (world_of appcast_nested)),
       None) /\
  exists d n,
    files (fst (clean_appcast "appcast.xml" "edge" (world_of appcast_nested)))
          "appcast.xml" = Some (Written d) /\
    stdout (fst (clean_appcast "appcast.xml" "edge" (world_of appcast_nested)))
      = stdout (world_of appcast_nested)
        ++ [removed_message n "edge" "appcast.xml"] /\
    items_in d + n <= items_in appcast_nested.
Proof.
  assert (H : clean_appcast "appcast.xml" "edge" (world_of appcast_nested)
              = (fst (clean_appcast "appcast.xml" "edge"
                        (world_of appcast_nested)), None))
    by (vm_compute; reflexivity).
  split; [exact H|].
  apply (count_at_most_missing "appcast.xml" "edge" (world_of appcast_nested)
           _ appcast_nested); [reflexivity | exact H].
Defined.

(** X9: when no [item] element of the document has an [item] element
    inside, the count reported by a run that returns is exactly the number
    of [item] elements by which the written tree is smaller than the parsed
    one. *)
Theorem count_is_missing (path c : string) (w w' : world) (t : xml) :
  read_xml (files w) path = Ok t ->
  flat_items t = true ->
  clean_appcast path c w = (w', None) ->
  exists d n,
    files w' path = Some (Written d) /\
    stdout w' = stdout w ++ [removed_message n c path] /\
    items_in d + n = items_in t.
Proof.
  intros Hr F H.
  destruct (clean_appcast_returned _ _ _ _ H) as [t' [Hr' [_ [_ [_ ->]]]]].
  rewrite Hr in Hr'. inversion Hr'; subst t'.
  exists (prune_root c t), (tally_root c t). simpl.
  split; [apply write_file_same|]. split; [reflexivity|].
  destruct t as [g a x l ks]. unfold tally_root.
  assert (K : forall k, In k ks ->
                flat_items k = true /\
                items_in (prune c k) + tally c k = items_in k).
  { intros k Hk. pose proof (flat_items_kid g a x l ks k F Hk).
    split; [assumption | now apply items_in_prune_flat]. }
  pose proof (kids_sum_eq c false ks K) as E.
  simpl. simpl in E. lia.
Qed.

Lemma count_is_missing_witness :
  flat_items appcast_mixed = true /\
  exists d n,
    files mixed_after "appcast.xml" = Some (Written d) /\
    stdout mixed_after
      = stdout (world_of appcast_mixed)
        ++ [removed_message n "edge" "appcast.xml"] /\
    items_in d + n = items_in appcast_mixed.
Proof.
  split; [reflexivity|].
  apply (count_is_missing "appcast.xml" "edge" (world_of appcast_mixed)
           mixed_after appcast_mixed); vm_compute; reflexivity.
Defined.

(** ** Two runs *)



(** X12: after a run for the channel [c1] that returns, followed by a run
    for the channel [c2] that returns, [c1] holding no line feed: no [item]
    child of a [channel] element below the root of the written tree has
    [c1] or [c2] as the text of its first [sparkle:channel] child; the
    second run brings nothing of the first channel back. *)
Theorem both_channels_gone (path c1 c2 : string) (w w1 w2 : world) :
  lf_free c1 = true ->
  clean_appcast path c1 w = (w1, None) ->
  clean_appcast path c2 w1 = (w2, None) ->
  exists d,
    files w2 path = Some (Written d) /\
    no_first_release c1 d /\ no_first_release c2 d.
Proof.
  intros Hc H1 H2.
  destruct (clean_appcast_returned _ _ _ _ H1) as [t [_ [_ [_ [_ ->]]]]].
  destruct (clean_appcast_returned _ _ _ _ H2) as [t2 [Hr [_ [_ [_ ->]]]]].
  simpl in Hr. unfold read_xml in Hr. rewrite write_file_same in Hr.
  inversion Hr; subst t2; clear Hr.
  eexists. simpl. split; [apply write_file_same|]. split.
  - apply no_first_release_prune. apply no_first_release_reread; [exact Hc|].
    apply prune_root_no_first.
  - apply prune_root_no_first.
Qed.

Lemma both_channels_gone_witness :
  lf_free "edge" = true /\
  exists d,
    files (fst (clean_appcast "appcast.xml" "stable" mixed_after))
          "appcast.xml" = Some (Written d) /\
    no_first_release "edge" d /\ no_first_release "stable" d.
Proof.
  split; [reflexivity|].
  apply (both_channels_gone "appcast.xml" "edge" "stable"
           (world_of appcast_mixed) mixed_after
           (fst (clean_appcast "appcast.xml" "stable" mixed_after)));
    vm_compute; reflexivity.
Defined.

(** ** The loops on the store *)

(** X10: the loops take a child away from its parent exactly when the parent
    is a [channel] element other than the root, the child is tagged [item]
    and the first [sparkle:channel] child of the child has the text [c].
    Children of other elements, children with other tags (were they to hold
    a matching [sparkle:channel] element) and the children of the root
    always stay. *)
Theorem removed_exactly_when (t : xml) (c : string) (p : addr) (i : nat)
  (parent k : xml) :
  subtree t p = Some parent ->
  nth_error (x_kids parent) i = Some k ->
  exists h' e',
    store_after t c = Ok h' /\
    h' p = Some e' /\
    (~ In (p ++ [i]) (children e') <->
     p <> [] /\ x_tag parent = "channel" /\ x_tag k = "item" /\
     exists s, first_kid sparkle_channel (x_kids k) = Some s /\
               x_text s = Some c).
Proof.
  intros Hp Hi. destruct (store_after_ok c t) as [h' [Hh V]].
  destruct (kept_child c t h' p i parent k V Hp Hi) as [e' [He' Hin]].
  exists h', e'. split; [exact Hh|]. split; [exact He'|].
  rewrite Hin, <- doomed_true.
  assert (B : channel_below t p = true <-> p <> [] /\ x_tag parent = "channel").
  { destruct p as [|j p].
    - simpl. split; [discriminate | intros [H _]; congruence].
    - rewrite (channel_below_cons t (j :: p) parent) by (auto; discriminate).
      rewrite String.eqb_eq. split; [intros H; split; [discriminate|exact H]
                                    | tauto]. }
  rewrite <- and_assoc, <- B.
  destruct (channel_below t p), (doomed c k); split; intros H;
    try tauto; try (exfalso; apply H; intros [? ?]; discriminate);
    try (destruct H; discriminate).
Qed.

Lemma removed_exactly_when_witness :
  exists h' e',
    store_after feed_at_root "edge" = Ok h' /\
    h' [] = Some e' /\
    (~ In [1] (children e') <->
     @nil nat <> [] /\ x_tag feed_at_root = "channel" /\
     x_tag (release [sparkle "edge"]) = "item" /\
     exists s, first_kid sparkle_channel
                 (x_kids (release [sparkle "edge"])) = Some s /\
               x_text s = Some "edge").
Proof.
  apply (removed_exactly_when feed_at_root "edge" [] 1 feed_at_root
           (release [sparkle "edge"])); reflexivity.
Defined.

(** X11: the loops end without an exception on every document and never
    create an object, never change a tag, an attribute, a text or a tail, and
    never add or reorder children: each object keeps a selection of its
    children in their order, and an object other than a [channel] element
    below the root is left exactly as the parser made it. *)
Theorem store_frame (t : xml) (c : string) :
  exists h',
    store_after t c = Ok h' /\
    forall a,
      match load t a with
      | None => h' a = None
      | Some e =>
          exists e',
            h' a = Some e' /\
            tag e' = tag e /\ attrib e' = attrib e /\
            text e' = text e /\ tail e' = tail e /\
            (exists keep, children e' = filter keep (children e)) /\
            (channel_below t a = false -> e' = e)
      end.
Proof.
  destruct (store_after_ok c t) as [h' [Hh V]].
  exists h'. split; [exact Hh|]. intros a. rewrite (V a).
  destruct (load t a) as [e|]; [|reflexivity].
  destruct (channel_below t a).
  - eexists. split; [reflexivity|]. simpl. repeat split; try reflexivity.
    + eexists. reflexivity.
    + discriminate.
  - exists e. split; [reflexivity|]. repeat split; try reflexivity.
    exists (fun _ => true). symmetry. now apply filter_all.
Qed.

